(** * EIP-7702 proof of concept: authorization hash and batch executor

    A shallow embedding of

    - the authorization-hash construction of [src/delegate.ts] and
      [src/delegate_and_execute.ts] (hex strings, [toBeHex], [encodeRlp],
      [concat], [keccak256] of ethers v6), and
    - the [BatchDelegator] contracts of
      [src/contracts/batchDelegatorWithCallers.sol] (allow-list variant,
      self-signed variant, and the unguarded variant),

    followed by the properties the specification states about them. *)

From Stdlib Require Import NArith ZArith List Bool Lia.
From Stdlib.Strings Require Import String Ascii Byte.
From stdpp Require Import base option list gmap.

Import ListNotations.
Local Open Scope bool_scope.

(** ** Bytes *)

Abbreviation bytes := (list byte).

(** The byte with unsigned value [n mod 256]. *)
Definition byte_of_N (n : N) : byte :=
  match Byte.of_N (n mod 256) with
  | Some b => b
  | None => x00
  end.

(** Big-endian value of a byte string. *)
Definition be_value (bs : bytes) : N :=
  fold_left (fun acc b => (256 * acc + Byte.to_N b)%N) bs 0%N.

(** ** Hex strings, as ethers handles them *)

Module Hex.

Local Open Scope string_scope.

(** [const nibbles = "0123456789abcdef"] *)
Definition nibbles : string := "0123456789abcdef".

(** [nibbles[v]] for [0 <= v < 16]. *)
Definition nibble (v : N) : ascii :=
  match String.get (N.to_nat v) nibbles with
  | Some c => c
  | None => "0"%char
  end.

(** Value of one hexadecimal digit, either case, as [parseInt(_, 16)] and
    the pattern [/^0x(?:[0-9a-f][0-9a-f])*$/i] accept it. *)
Definition hexValue (c : ascii) : option N :=
  let n := N_of_ascii c in
  if ((48 <=? n) && (n <=? 57))%N then Some (n - 48)%N
  else if ((97 <=? n) && (n <=? 102))%N then Some (n - 87)%N
  else if ((65 <=? n) && (n <=? 70))%N then Some (n - 55)%N
  else None.

(** The loop of [getBytes]: two digits per byte. *)
Fixpoint parsePairs (s : string) : option bytes :=
  match s with
  | EmptyString => Some []
  | String _ EmptyString => None
  | String hi (String lo rest) =>
      match hexValue hi, hexValue lo, parsePairs rest with
      | Some h, Some l, Some bs => Some (byte_of_N (16 * h + l) :: bs)
      | _, _, _ => None
      end
  end.

(** [getBytes(value)]: a string is accepted when it matches
    [/^0x(?:[0-9a-f][0-9a-f])*$/i], that is ["0x"] or ["0X"] followed by an
    even number of hex digits of either case; anything else throws
    ([None]). *)
Definition getBytes (value : string) : option bytes :=
  match value with
  | String "0" (String "x" rest) => parsePairs rest
  | String "0" (String "X" rest) => parsePairs rest
  | _ => None
  end.

(** The digits [hexlify] emits for a byte array. *)
Fixpoint hexDigits (bs : bytes) : string :=
  match bs with
  | [] => EmptyString
  | b :: rest =>
      String (nibble (Byte.to_N b / 16))
        (String (nibble (Byte.to_N b mod 16)) (hexDigits rest))
  end.

(** [hexlify(bytes)] *)
Definition hexlify (bs : bytes) : string := "0x" ++ hexDigits bs.

(** [BigInt.prototype.toString(16)] on a non-negative value: the digits are
    produced least significant first and pushed in front of [acc]. *)
Fixpoint toString16_loop (fuel : nat) (n : N) (acc : string) : string :=
  match fuel with
  | O => acc
  | S fuel' =>
      if (n =? 0)%N then acc
      else toString16_loop fuel' (n / 16) (String (nibble (n mod 16)) acc)
  end.

(** The digits of a number, none at all for 0. *)
Definition hexOf (n : N) : string := toString16_loop (N.to_nat (N.size n)) n "".

Definition toString16 (n : N) : string :=
  if (n =? 0)%N then "0" else hexOf n.

(** [if (result.length % 2) { result = "0" + result }] *)
Definition pad (result : string) : string :=
  if Nat.odd (String.length result) then "0" ++ result else result.

(** [toBeHex(value)] without a width: [value.toString(16)], one ["0"] in
    front when the number of digits is odd, then the ["0x"] prefix. *)
Definition toBeHex (value : N) : string :=
  let result := toString16 value in
  let result := pad result in
  "0x" ++ result.

(** [maxValue = 0x1fffffffffffff], the largest integer [getBigInt] takes
    from a JavaScript number. *)
Definition maxValue : N := 9007199254740991.

(** [toBeHex(value)] on a JavaScript number holding a non-negative integer:
    [getUint] throws ("overflow") above [maxValue]; a bigint has no such
    bound. *)
Definition toBeHex_number (value : N) : option string :=
  if (value <=? maxValue)%N then Some (toBeHex value) else None.

(** [concat(datas)]: ["0x" + datas.map(d => hexlify(d).substring(2)).join("")] *)
Fixpoint concat_digits (datas : list string) : option string :=
  match datas with
  | [] => Some EmptyString
  | d :: rest =>
      match getBytes d, concat_digits rest with
      | Some bs, Some s => Some (hexDigits bs ++ s)
      | _, _ => None
      end
  end.

Definition concat (datas : list string) : option string :=
  match concat_digits datas with
  | Some s => Some ("0x" ++ s)
  | None => None
  end.

End Hex.

(** ** RLP, as [encodeRlp] of ethers computes it *)

Module Rlp.

(** [RlpStructuredDataish]: a hex string or an array of items. *)
#[warnings="-register-all"] Inductive Item : Type :=
| Data (hex : string)
| Array (children : list Item).

(** [arrayifyInteger(value)]: the bytes of a length, most significant first,
    nothing at all for 0.  Lengths of JavaScript arrays stay far below 2^31,
    where the 32-bit operators [&] and [>>=] of the source agree with
    [mod 256] and [/ 256]. *)
Fixpoint arrayifyInteger_loop (fuel : nat) (value : N) (result : bytes) : bytes :=
  match fuel with
  | O => result
  | S fuel' =>
      if (value =? 0)%N then result
      else arrayifyInteger_loop fuel' (value / 256) (byte_of_N (value mod 256) :: result)
  end.

Definition arrayifyInteger (value : N) : bytes :=
  arrayifyInteger_loop (N.to_nat (N.size value)) value [].

(** The string branch of [_encode], after [getBytes]. *)
Definition encode_data (data : bytes) : bytes :=
  let len := N.of_nat (length data) in
  if (len =? 1)%N && (Byte.to_N (nth 0 data x00) <=? 127)%N then data
  else if (len <=? 55)%N then byte_of_N (128 + len) :: data
  else
    let length := arrayifyInteger len in
    byte_of_N (183 + N.of_nat (List.length length)) :: length ++ data.

(** The array branch of [_encode], after the children are encoded. *)
Definition encode_payload (payload : bytes) : bytes :=
  let len := N.of_nat (length payload) in
  if (len <=? 55)%N then byte_of_N (192 + len) :: payload
  else
    let length := arrayifyInteger len in
    byte_of_N (247 + N.of_nat (List.length length)) :: length ++ payload.

(** [_encode(object)] *)
Fixpoint _encode (object : Item) : option bytes :=
  match object with
  | Array children =>
      let fix each (cs : list Item) : option bytes :=
        match cs with
        | [] => Some []
        | child :: cs' =>
            match _encode child, each cs' with
            | Some e, Some payload => Some (e ++ payload)
            | _, _ => None
            end
        end in
      match each children with
      | Some payload => Some (encode_payload payload)
      | None => None
      end
  | Data hex =>
      match Hex.getBytes hex with
      | Some data => Some (encode_data data)
      | None => None
      end
  end.

(** [encodeRlp(object)]: the encoding as a hex string. *)
Definition encodeRlp (object : Item) : option string :=
  match _encode object with
  | Some bs => Some (Hex.hexlify bs)
  | None => None
  end.

End Rlp.

(** ** The authorization hash of the scripts *)

Module Delegate.
Section Keccak.

(** The Keccak-256 function on bytes; ethers takes it from a library. *)
Variable keccak : bytes -> bytes.

(** [keccak256(data)] of ethers: bytes in, hex string out. *)
Definition keccak256 (data : string) : option string :=
  match Hex.getBytes data with
  | Some bs => Some (Hex.hexlify (keccak bs))
  | None => None
  end.

(** [chainId ? toBeHex(chainId) : '0x'], [chainId] being a bigint: 0n is
    the falsy one. *)
Definition toBeHex_or_empty (x : N) : string :=
  if (x =? 0)%N then "0x"%string else Hex.toBeHex x.

(** [authNonce ? toBeHex(authNonce) : '0x'], [authNonce] being a number (a
    transaction count): 0 is falsy, and [toBeHex] throws above
    [Hex.maxValue]. *)
Definition number_toBeHex_or_empty (x : N) : option string :=
  if (x =? 0)%N then Some "0x"%string else Hex.toBeHex_number x.

(** [messageHash] of [src/delegate.ts], lines 46-55 (the same text is in the
    second script of [src/delegate_and_execute.ts], lines 251-260).  The
    elements of the array are evaluated first, in order; a throw in one of
    them ends the script. *)
Definition messageHash (chainId : N) (delegatorAddr : string) (authNonce : N)
  : option string :=
  let chainHex := toBeHex_or_empty chainId in
  match number_toBeHex_or_empty authNonce with
  | Some nonceHex =>
      match Rlp.encodeRlp (Rlp.Array [Rlp.Data chainHex;
                                      Rlp.Data delegatorAddr;
                                      Rlp.Data nonceHex]) with
      | Some rlp =>
          match Hex.concat ["0x05"%string; rlp] with
          | Some preimage => keccak256 preimage
          | None => None
          end
      | None => None
      end
  | None => None
  end.

End Keccak.
End Delegate.

Module SponsoredBatch.
Section Keccak.

Variable keccak : bytes -> bytes.

(** [rlpEncoded] of the first script of [src/delegate_and_execute.ts],
    lines 50-54: [toBeHex(chainId)] is not guarded here. *)
Definition rlpEncoded (chainId : N) (delegatorAddr : string) (authNonce : N)
  : option string :=
  let chainHex := Hex.toBeHex chainId in
  match Delegate.number_toBeHex_or_empty authNonce with
  | Some nonceHex =>
      Rlp.encodeRlp (Rlp.Array [Rlp.Data chainHex;
                                Rlp.Data delegatorAddr;
                                Rlp.Data nonceHex])
  | None => None
  end.

Definition MAGIC_PREFIX : string := "0x05".

(** [messageHash], lines 56-57, logged as the old hash; it is the digest
    that is signed on line 72. *)
Definition messageHash (chainId : N) (delegatorAddr : string) (authNonce : N)
  : option string :=
  match rlpEncoded chainId delegatorAddr authNonce with
  | Some rlp =>
      match Hex.concat [MAGIC_PREFIX; rlp] with
      | Some preimage => Delegate.keccak256 keccak preimage
      | None => None
      end
  | None => None
  end.

(** [hash], lines 60-67, logged as the new hash and not used afterwards. *)
Definition hash (chainId : N) (delegatorAddr : string) (authNonce : N)
  : option string :=
  let chainHex := Delegate.toBeHex_or_empty chainId in
  match Delegate.number_toBeHex_or_empty authNonce with
  | Some nonceHex =>
      match Rlp.encodeRlp (Rlp.Array [Rlp.Data chainHex;
                                      Rlp.Data delegatorAddr;
                                      Rlp.Data nonceHex]) with
      | Some rlp =>
          match Hex.concat ["0x05"%string; rlp] with
          | Some preimage => Delegate.keccak256 keccak preimage
          | None => None
          end
      | None => None
      end
  | None => None
  end.

End Keccak.
End SponsoredBatch.

(** ** The authorization hash as the specification words it *)

Module Spec.

(** An integer is encoded as its minimal big-endian byte string: the bytes
    have the value of the integer and the first one is not zero.  The only
    string of value 0 without a leading zero is the empty one. *)
Definition MinimalBE (n : N) (bs : bytes) : Prop :=
  be_value bs = n /\ hd_error bs <> Some x00.

Fixpoint encodeInt_digits (fuel : nat) (n : N) : bytes :=
  match fuel with
  | O => []
  | S fuel' =>
      if (n =? 0)%N then []
      else encodeInt_digits fuel' (n / 256) ++ [byte_of_N (n mod 256)]
  end.

(** [encodeInt]: base-256 digits, most significant first, none for 0. *)
Definition encodeInt (n : N) : bytes :=
  encodeInt_digits (N.to_nat (N.size n)) n.

(** RLP of a byte string: a single byte below 0x80 stands for itself; up to
    55 bytes take the header [0x80 + length]; longer strings take
    [0xb7 + length of the length] and the length. *)
Definition rlp_string (x : bytes) : bytes :=
  match x with
  | [b] => if (Byte.to_N b <? 128)%N then [b] else byte_of_N 129 :: x
  | _ =>
      let len := N.of_nat (length x) in
      if (len <? 56)%N then byte_of_N (128 + len) :: x
      else byte_of_N (183 + N.of_nat (length (encodeInt len))) :: encodeInt len ++ x
  end.

(** RLP of a list of byte strings: the items' encodings behind a list
    header, [0xc0 + length] up to 55 bytes of payload and
    [0xf7 + length of the length] beyond. *)
Definition rlp_list (items : list bytes) : bytes :=
  let payload := List.concat (map rlp_string items) in
  let len := N.of_nat (length payload) in
  if (len <? 56)%N then byte_of_N (192 + len) :: payload
  else byte_of_N (247 + N.of_nat (length (encodeInt len))) :: encodeInt len ++ payload.

(** [MAGIC_BYTE(0x05) || RLP([encodeInt(chainId), delegateAddress, encodeInt(nonce)])] *)
Definition auth_preimage (chainId : N) (delegateAddress : bytes) (nonce : N) : bytes :=
  x05 :: rlp_list [encodeInt chainId; delegateAddress; encodeInt nonce].

End Spec.

(** ** The host of the contracts *)

Local Open Scope Z_scope.

(** [address] and [uint256] values are integers in their ranges; the
    contracts only compare and store them. *)
Abbreviation address := Z.
Abbreviation uint256 := Z.

Record Call : Type := mkCall {
  target : address;
  value : uint256;
  data : bytes
}.

(** What a revert carries. *)
Inductive Error : Type :=
| InvalidSignature
| DeadlineExpired
| NonceAlreadyUsed
| AlreadyInitialized
| NotAllowedCaller
| ArrayLengthMismatch
| ErrorString (reason : string)   (* [require(cond, reason)] *)
| ECDSAFailure                    (* a revert inside [ECDSA.recover] *)
| DecodeFailure                   (* [abi.decode] on malformed data *)
| Panic (code : Z).               (* 0x32: index out of bounds *)

Inductive Event : Type :=
| AdminChanged (previousAdmin newAdmin : address)
| CallerUpdated (caller : address) (isAdded : bool)
| BatchExecuted (signer executor : address) (calls : list Call) (results : list bytes)
| BatchExecutedBy (signer : address) (calls : list Call) (results : list bytes).

(** [block.timestamp], [msg.sender] and [address(this)] of one invocation. *)
Record Env : Type := mkEnv {
  block_timestamp : uint256;
  msg_sender : address;
  this : address
}.

(** The ledger as one invocation sees it: the storage of the executing
    account, the events logged so far, and everything else. *)
Record Ledger (S W : Type) : Type := mkLedger {
  store : S;
  events : list Event;
  world : W
}.
Arguments mkLedger {S W} _ _ _.
Arguments store {S W} _.
Arguments events {S W} _.
Arguments world {S W} _.

(** What the contract takes from outside: the low-level call into another
    account (which may run any code, re-enter included, hence works on the
    whole ledger), OpenZeppelin's [ECDSA.recover] (it reverts on malformed
    signatures), [keccak256] and the three [abi.encode] instances. *)
Class Host (S : Type) : Type := {
  World : Type;
  call : Env -> Call -> Ledger S World -> (bool * bytes) * Ledger S World;
  ECDSA_recover : bytes -> bytes -> option address;
  keccak256 : bytes -> bytes;
  abi_encode_batch : list Call -> uint256 -> uint256 -> bytes;
  abi_encode_adminChange : address -> uint256 -> uint256 -> bytes;
  abi_encode_callerUpdate : list address -> list bool -> uint256 -> uint256 -> bytes
}.

(** *** Execution with revert *)

(** The outcome of running code on a state: either it returns, or it
    reverts; the state reached at that point is kept so that one can see
    what the rollback undoes. *)
Inductive Result (St A : Type) : Type :=
| Return (a : A) (st : St)
| Revert (e : Error) (st : St).
Arguments Return {St A} _ _.
Arguments Revert {St A} _ _.

Definition M (St A : Type) : Type := St -> Result St A.

Definition ret {St A} (a : A) : M St A := fun st => Return a st.

Definition bind {St A B} (m : M St A) (k : A -> M St B) : M St B :=
  fun st =>
    match m st with
    | Return a st' => k a st'
    | Revert e st' => Revert e st'
    end.

Definition revert {St A} (e : Error) : M St A := fun st => Revert e st.

(** [require(cond, reason)] *)
Definition require {St} (cond : bool) (reason : string) : M St unit :=
  if cond then ret tt else revert (ErrorString reason).

Definition get {St} : M St St := fun st => Return st st.
Definition put {St} (st : St) : M St unit := fun _ => Return tt st.

Notation "'let*' x ':=' c1 'in' c2" := (bind c1 (fun x => c2))
  (at level 10, x pattern, c1 at level 100, c2 at level 200).
Notation "c1 ;; c2" := (bind c1 (fun _ => c2))
  (at level 100, c2 at level 200, right associativity).

(** What the sender of a transaction sees. *)
Inductive Receipt (A : Type) : Type :=
| Success (a : A)
| Reverted (e : Error).
Arguments Success {A} _.
Arguments Reverted {A} _.

(** A top-level invocation: a revert discards every change made since the
    invocation began; this is the guarantee of the ledger, not of the
    contract. *)
Definition transact {St A} (m : M St A) (st : St) : Receipt A * St :=
  match m st with
  | Return a st' => (Success a, st')
  | Revert e _ => (Reverted e, st)
  end.

(** *** What the contracts share *)

Section Shared.
Context {S : Type} `{Host S}.

Definition emit (ev : Event) : M (Ledger S World) unit :=
  fun l => Return tt (mkLedger (store l) (events l ++ [ev]) (world l)).

Definition read {A} (field : S -> A) : M (Ledger S World) A :=
  fun l => Return (field (store l)) l.

Definition write (upd : S -> S) : M (Ledger S World) unit :=
  fun l => Return tt (mkLedger (upd (store l)) (events l) (world l)).

(** [c.target.call{ value: c.value }(c.data)] *)
Definition low_level_call (env : Env) (c : Call) : M (Ledger S World) (bool * bytes) :=
  fun l => let '(r, l') := call env c l in Return r l'.

(** [ECDSA.recover(hash, signature)] *)
Definition recover (hash signature : bytes) : M (Ledger S World) address :=
  match ECDSA_recover hash signature with
  | Some signer => ret signer
  | None => revert ECDSAFailure
  end.

(** ["\x19Ethereum Signed Message:\n32"] *)
Definition eth_signed_prefix : bytes :=
  x19 :: list_byte_of_string "Ethereum Signed Message:" ++ [x0a; x33; x32].

(** [MessageHashUtils.toEthSignedMessageHash(messageHash)] *)
Definition toEthSignedMessageHash (messageHash : bytes) : bytes :=
  keccak256 (eth_signed_prefix ++ messageHash).

(** [abi.decode(ret, (bool))] under the ABI coder of Solidity 0.8: fewer
    than 32 bytes revert, the first word must be 0 or 1, and bytes after
    the first word are not looked at. *)
Definition abi_decode_bool (ret : bytes) : option bool :=
  if (length ret <? 32)%nat then None
  else
    let word := be_value (take 32 ret) in
    if (word =? 0)%N then Some false
    else if (word =? 1)%N then Some true
    else None.

(** The body of the loop [for (uint256 i = 0; i < n; i++)] of every
    [executeBatch]; [calls] is what is left from index [i] on. *)
Fixpoint forward (env : Env) (calls : list Call) (i : nat) (results : list bytes)
  : M (Ledger S World) (list bytes) :=
  match calls with
  | [] => ret results
  | c :: calls' =>
      let* (ok, ret_data) := low_level_call env c in
      require ok "BatchDelegator: call failed" ;;
      (if (0 <? length ret_data)%nat then
         match abi_decode_bool ret_data with
         | Some success => require success "BatchDelegator: call returned false"
         | None => revert DecodeFailure
         end
       else ret tt) ;;
      forward env calls' (Datatypes.S i) (<[i := ret_data]> results)
  end.

(** [keccak256(abi.encode(calls, nonce, deadline))] *)
Definition getBatchHash (calls : list Call) (nonce deadline : uint256) : bytes :=
  keccak256 (abi_encode_batch calls nonce deadline).

(** [keccak256(abi.encode(newAdmin, nonce, deadline))] *)
Definition getAdminChangeHash (newAdmin : address) (nonce deadline : uint256) : bytes :=
  keccak256 (abi_encode_adminChange newAdmin nonce deadline).

(** [keccak256(abi.encode(callers, isAdding, nonce, deadline))] *)
Definition getCallerUpdateHash (callers : list address) (isAdding : list bool)
  (nonce deadline : uint256) : bytes :=
  keccak256 (abi_encode_callerUpdate callers isAdding nonce deadline).

End Shared.

Record SignedBatch : Type := mkSignedBatch {
  sb_calls : list Call;
  sb_nonce : uint256;
  sb_deadline : uint256;
  sb_signature : bytes
}.

Record SignedAdminChange : Type := mkSignedAdminChange {
  sc_newAdmin : address;
  sc_nonce : uint256;
  sc_deadline : uint256;
  sc_signature : bytes
}.

Record SignedCallerUpdate : Type := mkSignedCallerUpdate {
  su_callers : list address;
  su_isAdding : list bool;
  su_nonce : uint256;
  su_deadline : uint256;
  su_signature : bytes
}.

(** ** [BatchDelegator] with admin and allowed callers
    (lines 1-200 of [src/contracts/batchDelegatorWithCallers.sol]) *)

Module WithCallers.

Record Storage : Type := mkStorage {
  admin : address;
  allowedCallers : gmap Z bool;
  usedNonces : gmap Z bool;
  initialized : bool
}.

(** Storage of a fresh deployment: every slot is zero. *)
Definition deployed : Storage := mkStorage 0 ∅ ∅ false.

Definition set_admin (a : address) (s : Storage) : Storage :=
  mkStorage a (allowedCallers s) (usedNonces s) (initialized s).

Definition set_allowedCaller (c : address) (b : bool) (s : Storage) : Storage :=
  mkStorage (admin s) (<[c := b]> (allowedCallers s)) (usedNonces s) (initialized s).

Definition set_usedNonce (n : uint256) (b : bool) (s : Storage) : Storage :=
  mkStorage (admin s) (allowedCallers s) (<[n := b]> (usedNonces s)) (initialized s).

Definition set_initialized (b : bool) (s : Storage) : Storage :=
  mkStorage (admin s) (allowedCallers s) (usedNonces s) b.

(** Reading a [mapping(_ => bool)]: absent keys read as [false]. *)
Definition isAllowed (s : Storage) (c : address) : bool :=
  default false (allowedCallers s !! c).

Definition isUsed (s : Storage) (n : uint256) : bool :=
  default false (usedNonces s !! n).

Section Contract.
Context `{Host Storage}.

Definition initialize (_admin : address) : M (Ledger Storage World) unit :=
  let* is_initialized := read initialized in
  if is_initialized : bool then revert AlreadyInitialized
  else
    write (set_initialized true) ;;
    write (set_admin _admin) ;;
    emit (AdminChanged 0 _admin).

Definition setAdmin (env : Env) (signedChange : SignedAdminChange)
  : M (Ledger Storage World) unit :=
  if block_timestamp env >? sc_deadline signedChange then revert DeadlineExpired
  else
    let* used := read (fun s => isUsed s (sc_nonce signedChange)) in
    if used : bool then revert NonceAlreadyUsed
    else
      write (set_usedNonce (sc_nonce signedChange) true) ;;
      let messageHash :=
        getAdminChangeHash (sc_newAdmin signedChange) (sc_nonce signedChange)
          (sc_deadline signedChange) in
      let ethSignedMessageHash := toEthSignedMessageHash messageHash in
      let* signer := recover ethSignedMessageHash (sc_signature signedChange) in
      let* current := read admin in
      if negb (signer =? current) then revert InvalidSignature
      else
        let previousAdmin := current in
        write (set_admin (sc_newAdmin signedChange)) ;;
        emit (AdminChanged previousAdmin (sc_newAdmin signedChange)).

(** The loop of [updateCallers]; [callers] is what is left from index [i]
    on, [isAdding] is indexed with a bounds check. *)
Fixpoint updateCallers_loop (callers : list address) (isAdding : list bool) (i : nat)
  : M (Ledger Storage World) unit :=
  match callers with
  | [] => ret tt
  | caller :: callers' =>
      match isAdding !! i with
      | Some flag =>
          write (set_allowedCaller caller flag) ;;
          emit (CallerUpdated caller flag) ;;
          updateCallers_loop callers' isAdding (Datatypes.S i)
      | None => revert (Panic 50)
      end
  end.

Definition updateCallers (env : Env) (signedUpdate : SignedCallerUpdate)
  : M (Ledger Storage World) unit :=
  if negb (length (su_callers signedUpdate) =? length (su_isAdding signedUpdate))%nat
  then revert ArrayLengthMismatch
  else if block_timestamp env >? su_deadline signedUpdate then revert DeadlineExpired
  else
    let* used := read (fun s => isUsed s (su_nonce signedUpdate)) in
    if used : bool then revert NonceAlreadyUsed
    else
      write (set_usedNonce (su_nonce signedUpdate) true) ;;
      let messageHash :=
        getCallerUpdateHash (su_callers signedUpdate) (su_isAdding signedUpdate)
          (su_nonce signedUpdate) (su_deadline signedUpdate) in
      let ethSignedMessageHash := toEthSignedMessageHash messageHash in
      let* signer := recover ethSignedMessageHash (su_signature signedUpdate) in
      let* current := read admin in
      if negb (signer =? current) then revert InvalidSignature
      else updateCallers_loop (su_callers signedUpdate) (su_isAdding signedUpdate) 0.

Definition executeBatch (env : Env) (signedBatch : SignedBatch)
  : M (Ledger Storage World) (list bytes) :=
  if block_timestamp env >? sb_deadline signedBatch then revert DeadlineExpired
  else
    let* used := read (fun s => isUsed s (sb_nonce signedBatch)) in
    if used : bool then revert NonceAlreadyUsed
    else
      write (set_usedNonce (sb_nonce signedBatch) true) ;;
      let messageHash :=
        getBatchHash (sb_calls signedBatch) (sb_nonce signedBatch)
          (sb_deadline signedBatch) in
      let ethSignedMessageHash := toEthSignedMessageHash messageHash in
      let* signer := recover ethSignedMessageHash (sb_signature signedBatch) in
      let* allowed := read (fun s => isAllowed s signer) in
      if negb allowed then revert NotAllowedCaller
      else
        let n := length (sb_calls signedBatch) in
        let* results := forward env (sb_calls signedBatch) 0 (replicate n []) in
        emit (BatchExecuted signer (msg_sender env) (sb_calls signedBatch) results) ;;
        ret results.

(** The ledger once [usedNonces[n] = true] is written. *)
Definition mark_nonce (n : uint256) (l : Ledger Storage World) : Ledger Storage World :=
  mkLedger (set_usedNonce n true (store l)) (events l) (world l).

(** The ledger once [admin = a] is written and [AdminChanged] is logged. *)
Definition change_admin (a : address) (l : Ledger Storage World) : Ledger Storage World :=
  mkLedger (set_admin a (store l)) (events l ++ [AdminChanged (admin (store l)) a]) (world l).

(** The ledger once the loop of [updateCallers] has gone through the two
    arrays. *)
Fixpoint update_all (callers : list address) (flags : list bool)
    (l : Ledger Storage World) : Ledger Storage World :=
  match callers, flags with
  | caller :: callers', flag :: flags' =>
      update_all callers' flags'
        (mkLedger (set_allowedCaller caller flag (store l))
           (events l ++ [CallerUpdated caller flag]) (world l))
  | _, _ => l
  end.

(** The external entry points that change state. *)
Inductive Op : Type :=
| Initialize (_admin : address)
| SetAdmin (signedChange : SignedAdminChange)
| UpdateCallers (signedUpdate : SignedCallerUpdate)
| ExecuteBatch (signedBatch : SignedBatch).

Definition invoke (env : Env) (op : Op) : M (Ledger Storage World) (list bytes) :=
  match op with
  | Initialize a => initialize a ;; ret []
  | SetAdmin sc => setAdmin env sc ;; ret []
  | UpdateCallers su => updateCallers env su ;; ret []
  | ExecuteBatch sb => executeBatch env sb
  end.

(** The nonce an operation presents, if it has one. *)
Definition op_nonce (op : Op) : option uint256 :=
  match op with
  | Initialize _ => None
  | SetAdmin sc => Some (sc_nonce sc)
  | UpdateCallers su => Some (su_nonce su)
  | ExecuteBatch sb => Some (sb_nonce sb)
  end.

(** The checks an operation makes before it looks at its nonce: the array
    lengths of [updateCallers], then the deadline. *)
Definition reaches_nonce_check (env : Env) (op : Op) : bool :=
  match op with
  | Initialize _ => false
  | SetAdmin sc => negb (block_timestamp env >? sc_deadline sc)
  | UpdateCallers su =>
      (length (su_callers su) =? length (su_isAdding su))%nat
      && negb (block_timestamp env >? su_deadline su)
  | ExecuteBatch sb => negb (block_timestamp env >? sb_deadline sb)
  end.

(** A history of top-level invocations, each in its own block context. *)
Definition run (txs : list (Env * Op)) (l : Ledger Storage World) : Ledger Storage World :=
  fold_left (fun l tx => snd (transact (invoke (fst tx) (snd tx)) l)) txs l.

End Contract.
End WithCallers.

(** ** [BatchDelegator] that wants the signature of [address(this)]
    (lines 201-343 of [src/contracts/batchDelegatorWithCallers.sol]) *)

Module WithSig.

Record Storage : Type := mkStorage {
  admin : address;
  usedNonces : gmap Z bool;
  initialized : bool
}.

Definition isUsed (s : Storage) (n : uint256) : bool :=
  default false (usedNonces s !! n).

Definition set_usedNonce (n : uint256) (b : bool) (s : Storage) : Storage :=
  mkStorage (admin s) (<[n := b]> (usedNonces s)) (initialized s).

Definition set_admin (a : address) (s : Storage) : Storage :=
  mkStorage a (usedNonces s) (initialized s).

Definition set_initialized (b : bool) (s : Storage) : Storage :=
  mkStorage (admin s) (usedNonces s) b.

Section Contract.
Context `{Host Storage}.

Definition initialize (_admin : address) : M (Ledger Storage World) unit :=
  let* is_initialized := read initialized in
  if is_initialized : bool then revert AlreadyInitialized
  else
    write (set_initialized true) ;;
    write (set_admin _admin) ;;
    emit (AdminChanged 0 _admin).

Definition setAdmin (env : Env) (signedChange : SignedAdminChange)
  : M (Ledger Storage World) unit :=
  if block_timestamp env >? sc_deadline signedChange then revert DeadlineExpired
  else
    let* used := read (fun s => isUsed s (sc_nonce signedChange)) in
    if used : bool then revert NonceAlreadyUsed
    else
      write (set_usedNonce (sc_nonce signedChange) true) ;;
      let messageHash :=
        getAdminChangeHash (sc_newAdmin signedChange) (sc_nonce signedChange)
          (sc_deadline signedChange) in
      let ethSignedMessageHash := toEthSignedMessageHash messageHash in
      let* signer := recover ethSignedMessageHash (sc_signature signedChange) in
      let* current := read admin in
      if negb (signer =? current) then revert InvalidSignature
      else
        let previousAdmin := current in
        write (set_admin (sc_newAdmin signedChange)) ;;
        emit (AdminChanged previousAdmin (sc_newAdmin signedChange)).

Definition executeBatch (env : Env) (signedBatch : SignedBatch)
  : M (Ledger Storage World) (list bytes) :=
  if block_timestamp env >? sb_deadline signedBatch then revert DeadlineExpired
  else
    let* used := read (fun s => isUsed s (sb_nonce signedBatch)) in
    if used : bool then revert NonceAlreadyUsed
    else
      write (set_usedNonce (sb_nonce signedBatch) true) ;;
      let messageHash :=
        getBatchHash (sb_calls signedBatch) (sb_nonce signedBatch)
          (sb_deadline signedBatch) in
      let ethSignedMessageHash := toEthSignedMessageHash messageHash in
      let* signer := recover ethSignedMessageHash (sb_signature signedBatch) in
      if negb (signer =? this env) then revert InvalidSignature
      else
        let n := length (sb_calls signedBatch) in
        let* results := forward env (sb_calls signedBatch) 0 (replicate n []) in
        emit (BatchExecuted (this env) (msg_sender env) (sb_calls signedBatch) results) ;;
        ret results.

End Contract.
End WithSig.

(** ** [BatchDelegator] without any check ([src/unnamed/part_000]) *)

Module Unguarded.
Section Contract.
Context `{Host unit}.

Definition executeBatch (env : Env) (calls : list Call)
  : M (Ledger unit World) (list bytes) :=
  let n := length calls in
  let* results := forward env calls 0 (replicate n []) in
  emit (BatchExecutedBy (msg_sender env) calls results) ;;
  ret results.

End Contract.
End Unguarded.

(** ** The loop of [executeBatch], call by call *)

Section Outcome.
Context {S : Type} `{Host S}.

(** A forwarded call lets the loop go on when the low-level call reports
    success and its return data is empty or decodes to [true]. *)
Definition call_passed (r : bool * bytes) : bool :=
  fst r &&
  (if (0 <? length (snd r))%nat then
     match abi_decode_bool (snd r) with
     | Some true => true
     | _ => false
     end
   else true).

(** A forwarded call fails when the low-level call reports failure or its
    non-empty return data decodes to [false]. *)
Definition call_failed (r : bool * bytes) : bool :=
  negb (fst r) ||
  ((0 <? length (snd r))%nat &&
   match abi_decode_bool (snd r) with
   | Some false => true
   | _ => false
   end).

(** The error the loop reverts with at a call that does not pass. *)
Definition stop_error (r : bool * bytes) : Error :=
  if negb (fst r) then ErrorString "BatchDelegator: call failed"
  else
    match abi_decode_bool (snd r) with
    | Some _ => ErrorString "BatchDelegator: call returned false"
    | None => DecodeFailure
    end.

(** Running the calls in order from ledger [l]: the result of the first
    call that does not pass and the ledger it left, or the return data of
    all calls and the final ledger. *)
Fixpoint run_calls (env : Env) (calls : list Call) (l : Ledger S World)
  : (bool * bytes) * Ledger S World + list bytes * Ledger S World :=
  match calls with
  | [] => inr ([], l)
  | c :: calls' =>
      let '(r, l') := call env c l in
      if call_passed r then
        match run_calls env calls' l' with
        | inl stop => inl stop
        | inr (rets, l'') => inr (snd r :: rets, l'')
        end
      else inl (r, l')
  end.

(** [results[i] = ret], [results[i+1] = ret'], ... *)
Fixpoint fill (i : nat) (rets : list bytes) (results : list bytes) : list bytes :=
  match rets with
  | [] => results
  | r :: rets' => fill (Datatypes.S i) rets' (<[i := r]> results)
  end.

End Outcome.

(** [l'] has every mark of [l]: the [initialized] flag if it was set, and
    every used nonce. *)
Definition keeps_marks {W : Type} (l l' : Ledger WithCallers.Storage W) : Prop :=
  (WithCallers.initialized (store l) = true ->
   WithCallers.initialized (store l') = true) /\
  (forall n, WithCallers.isUsed (store l) n = true ->
             WithCallers.isUsed (store l') n = true).

(** External calls never clear the [initialized] flag or a used nonce of
    the executing account: whatever code they run can reach this storage
    only through the contract's own entry points. *)
Definition calls_keep_marks `{Host WithCallers.Storage} : Prop :=
  forall env c l, keeps_marks l (snd (call env c l)).

(** ** A small host to run the contracts on *)

Module Demo.

(** One ABI word holding [n]. *)
Definition word (n : N) : bytes := replicate 31 x00 ++ [byte_of_N n].

(** The world is the list of deliveries made so far.  Target 1 is a token
    that returns [true]; 2 fails; 3 returns [false]; 4 returns nothing;
    5 returns the [uint256] 1; 6 returns the pair of [uint256] (1, 5);
    7 returns the [uint256] 2; 8 returns three bytes; any other target
    fails. *)
Definition reply (t : address) : bool * bytes :=
  if t =? 1 then (true, word 1)
  else if t =? 2 then (false, [])
  else if t =? 3 then (true, word 0)
  else if t =? 4 then (true, [])
  else if t =? 5 then (true, word 1)
  else if t =? 6 then (true, word 1 ++ word 5)
  else if t =? 7 then (true, word 2)
  else if t =? 8 then (true, [x01; x02; x03])
  else (false, []).

Definition demo_call {S : Type} (env : Env) (c : Call) (l : Ledger S (list (address * uint256)))
  : (bool * bytes) * Ledger S (list (address * uint256)) :=
  let r := reply (target c) in
  (r, if fst r then mkLedger (store l) (events l) (world l ++ [(target c, value c)]) else l).

(** A signature is its signer's one-byte address. *)
Definition demo_recover (hash signature : bytes) : option address :=
  match signature with
  | [b] => Some (Z.of_N (Byte.to_N b))
  | _ => None
  end.

Definition host (S : Type) : Host S := {|
  World := list (address * uint256);
  call := demo_call;
  ECDSA_recover := demo_recover;
  keccak256 := fun bs => bs;
  abi_encode_batch := fun _ _ _ => [];
  abi_encode_adminChange := fun _ _ _ => [];
  abi_encode_callerUpdate := fun _ _ _ _ => []
|}.

(** A fresh deployment in an empty world. *)
Definition genesis : Ledger WithCallers.Storage (list (address * uint256)) :=
  mkLedger WithCallers.deployed [] [].

(** The same after [initialize(10)] and with caller 20 allowed. *)
Definition ready : Ledger WithCallers.Storage (list (address * uint256)) :=
  mkLedger (WithCallers.mkStorage 10 {[ 20 := true ]} ∅ true) [] [].

Definition now : Env := mkEnv 1000 99 50.

End Demo.

(** ** A host whose [ECDSA.recover] never returns the zero address *)

Module DemoStrict.

(** OpenZeppelin's [ECDSA.recover] reverts when the recovered address is
    zero; here the one-byte signature [0x00] is refused. *)
Definition strict_recover (hash signature : bytes) : option address :=
  match Demo.demo_recover hash signature with
  | Some a => if a =? 0 then None else Some a
  | None => None
  end.

Definition host (S : Type) : Host S := {|
  World := list (address * uint256);
  call := Demo.demo_call;
  ECDSA_recover := strict_recover;
  keccak256 := fun bs => bs;
  abi_encode_batch := fun _ _ _ => [];
  abi_encode_adminChange := fun _ _ _ => [];
  abi_encode_callerUpdate := fun _ _ _ _ => []
|}.

End DemoStrict.

(** ** What an update leaves behind *)

(** The flag of the last entry of [callers] that names [s], if any: the
    loop of [updateCallers] writes the entries in order, so the last one
    stays. *)
Fixpoint final_flag (callers : list address) (flags : list bool) (s : address)
  : option bool :=
  match callers, flags with
  | c :: callers', f :: flags' =>
      match final_flag callers' flags' s with
      | Some b => Some b
      | None => if decide (c = s) then Some f else None
      end
  | _, _ => None
  end.

(** Return data that lets the loop of [executeBatch] go on. *)
Definition passing_data (ret_data : bytes) : Prop :=
  ret_data = [] \/ abi_decode_bool ret_data = Some true.

(** * Properties *)

(** ** The codec on known vectors *)

Example toBeHex_vectors :
  (Hex.toBeHex 0, Hex.toBeHex 15, Hex.toBeHex 256, Hex.toBeHex 11155111)
  = ("0x00", "0x0f", "0x0100", "0xaa36a7")%string.
Proof. reflexivity. Qed.

Example encodeRlp_dog : Rlp.encodeRlp (Rlp.Data "0x646f67") = Some "0x83646f67"%string.
Proof. reflexivity. Qed.

Example encodeRlp_cat_dog :
  Rlp.encodeRlp (Rlp.Array [Rlp.Data "0x636174"; Rlp.Data "0x646f67"])
  = Some "0xc88363617483646f67"%string.
Proof. reflexivity. Qed.

Example encodeRlp_small :
  (Rlp.encodeRlp (Rlp.Data "0x"), Rlp.encodeRlp (Rlp.Array []),
   Rlp.encodeRlp (Rlp.Data "0x0f"), Rlp.encodeRlp (Rlp.Data "0x0400"),
   Rlp.encodeRlp (Rlp.Data "0x0g"))
  = (Some "0x80", Some "0xc0", Some "0x0f", Some "0x820400", None)%string.
Proof. reflexivity. Qed.

Example getBytes_vectors :
  (Hex.getBytes "0XAb", Hex.getBytes "0xaB", Hex.getBytes "1x00", Hex.getBytes "0x0",
   Hex.getBytes "0x")
  = (Some [xab], Some [xab], None, None, Some [])%string.
Proof. reflexivity. Qed.

Example toBeHex_number_vectors :
  (Hex.toBeHex_number 9007199254740991, Hex.toBeHex_number 9007199254740992)
  = (Some "0x1fffffffffffff", None)%string.
Proof. reflexivity. Qed.

Example encodeRlp_long_string :
  Rlp.encodeRlp (Rlp.Data
    "0x4c6f72656d20697073756d20646f6c6f722073697420616d65742c20636f6e7365637465747572206164697069736963696e6720656c6974")
  = Some
    "0xb8384c6f72656d20697073756d20646f6c6f722073697420616d65742c20636f6e7365637465747572206164697069736963696e6720656c6974"%string.
Proof. reflexivity. Qed.

Example encodeRlp_nested :
  Rlp.encodeRlp (Rlp.Array [Rlp.Array []; Rlp.Array [Rlp.Array []];
                            Rlp.Array [Rlp.Array []; Rlp.Array [Rlp.Array []]]])
  = Some "0xc7c0c1c0c3c0c1c0"%string.
Proof. reflexivity. Qed.

(** The preimage on Sepolia for the delegator of the recorded run. *)
Example auth_preimage_sepolia :
  Hex.hexlify (Spec.auth_preimage 11155111
    [x0e; xac; xc2; x30; x7f; x01; x13; xf2; x68; x40;
     xdd; x1d; xac; x8d; xc5; x86; x25; x99; x94; xdd] 0)
  = "0x05da83aa36a7940eacc2307f0113f26840dd1dac8dc586259994dd80"%string.
Proof. reflexivity. Qed.

Example abi_decode_bool_vectors :
  (abi_decode_bool (Demo.word 1),
   abi_decode_bool (Demo.word 0),
   abi_decode_bool (Demo.word 2),
   abi_decode_bool [x01],
   abi_decode_bool (Demo.word 1 ++ Demo.word 5))
  = (Some true, Some false, None, None, Some true).
Proof. reflexivity. Qed.

(** ** Bytes and digits *)

Lemma to_N_byte_of_N (n : N) : Byte.to_N (byte_of_N n) = (n mod 256)%N.
Proof.
  unfold byte_of_N.
  destruct (Byte.of_N (n mod 256)) as [b|] eqn:E.
  - by apply Byte.to_of_N.
  - apply Byte.of_N_None_iff in E.
    pose proof (N.mod_upper_bound n 256). lia.
Qed.

Lemma byte_of_N_to_N (b : byte) : byte_of_N (Byte.to_N b) = b.
Proof.
  unfold byte_of_N.
  pose proof (Byte.to_N_bounded b).
  rewrite N.mod_small by lia.
  by rewrite Byte.of_to_N.
Qed.

Lemma byte_of_N_mod (n : N) : byte_of_N (n mod 256) = byte_of_N n.
Proof.
  unfold byte_of_N. rewrite N.Div0.mod_mod. reflexivity.
Qed.

Lemma be_value_snoc (bs : bytes) (b : byte) :
  be_value (bs ++ [b]) = (256 * be_value bs + Byte.to_N b)%N.
Proof. unfold be_value. by rewrite fold_left_app. Qed.

Lemma be_value_replicate_zero (k : nat) (bs : bytes) :
  be_value (replicate k x00 ++ bs) = be_value bs.
Proof.
  unfold be_value. rewrite fold_left_app.
  replace (fold_left _ (replicate k x00) 0%N) with 0%N; [done|].
  induction k as [|k IH]; simpl; [done|]. exact IH.
Qed.

Module HexFacts.
Import Hex.
Local Open Scope string_scope.
Local Open Scope N_scope.

Lemma hexValue_nibble (d : N) : d < 16 -> hexValue (nibble d) = Some d.
Proof.
  intros Hd.
  destruct d as [|p]; [reflexivity|].
  do 4 (destruct p as [p|p|]; try reflexivity); lia.
Qed.

Lemma parsePairs_hexDigits (bs : bytes) : parsePairs (hexDigits bs) = Some bs.
Proof.
  induction bs as [|b bs IH]; [reflexivity|].
  pose proof (Byte.to_N_bounded b) as Hb.
  cbn [hexDigits parsePairs].
  rewrite !hexValue_nibble, IH.
  - f_equal. f_equal.
    rewrite <- (byte_of_N_to_N b) at 3. f_equal.
    rewrite (N.div_mod' (Byte.to_N b) 16) at 3. reflexivity.
  - apply N.mod_upper_bound. lia.
  - apply N.Div0.div_lt_upper_bound. lia.
Qed.

Lemma getBytes_hexlify (bs : bytes) : getBytes (hexlify bs) = Some bs.
Proof. apply parsePairs_hexDigits. Qed.

End HexFacts.

(** ** Digit loops *)

Lemma size_div_lt (n b : N) :
  (0 < n)%N -> (2 <= b)%N -> (N.to_nat (N.size (n / b)%N) < N.to_nat (N.size n))%nat.
Proof.
  intros Hn Hb.
  rewrite (N.size_log2 n) by lia.
  assert (2 * (n / b) <= n)%N as Hle.
  { pose proof (N.Div0.mul_div_le n b). nia. }
  generalize dependent (n / b)%N. intros q Hle.
  destruct (N.eq_dec q 0%N) as [E|E].
  - rewrite E. simpl. lia.
  - rewrite N.size_log2 by lia.
    apply N.log2_le_mono in Hle.
    rewrite N.log2_double in Hle by lia. lia.
Qed.

Lemma append_cons (c : ascii) (s t : string) :
  (String c s ++ t)%string = String c (s ++ t)%string.
Proof. reflexivity. Qed.

Lemma append_nil_l (s : string) : ("" ++ s)%string = s.
Proof. reflexivity. Qed.

Lemma append_nil_r (s : string) : (s ++ "")%string = s.
Proof. induction s as [|c s IH]; [done|]. by rewrite append_cons, IH. Qed.

Lemma append_assoc (s t u : string) : ((s ++ t) ++ u = s ++ (t ++ u))%string.
Proof. induction s as [|c s IH]; [done|]. by rewrite !append_cons, IH. Qed.

Lemma length_append (s t : string) :
  String.length (s ++ t) = (String.length s + String.length t)%nat.
Proof. induction s as [|c s IH]; [done|]. rewrite append_cons. simpl. by rewrite IH. Qed.

Module DigitFacts.
Import Hex.
Local Open Scope N_scope.

Lemma toString16_loop_acc (fuel : nat) (n : N) (acc : string) :
  toString16_loop fuel n acc = (toString16_loop fuel n "" ++ acc)%string.
Proof.
  revert n acc. induction fuel as [|fuel IH]; intros n acc; simpl; [done|].
  destruct (n =? 0); [done|].
  rewrite IH. rewrite (IH _ (String _ "")). by rewrite append_assoc.
Qed.

Lemma toString16_loop_fuel (f1 f2 : nat) (n : N) (acc : string) :
  (N.to_nat (N.size n) <= f1)%nat -> (N.to_nat (N.size n) <= f2)%nat ->
  toString16_loop f1 n acc = toString16_loop f2 n acc.
Proof.
  revert f2 n acc. induction f1 as [|f1 IH]; intros f2 n acc H1 H2.
  - assert (n = 0) as -> by (destruct n; [done|]; simpl in H1; lia).
    by destruct f2.
  - destruct f2 as [|f2].
    + assert (n = 0) as -> by (destruct n; [done|]; simpl in H2; lia). done.
    + simpl. destruct (n =? 0) eqn:E; [done|].
      apply N.eqb_neq in E.
      pose proof (size_div_lt n 16 ltac:(lia) ltac:(lia)).
      apply IH; lia.
Qed.

Lemma hexOf_step (n : N) :
  0 < n -> hexOf n = (hexOf (n / 16) ++ String (nibble (n mod 16)) "")%string.
Proof.
  intros Hn. unfold hexOf.
  pose proof (size_div_lt n 16 Hn ltac:(lia)) as Hlt.
  destruct (N.to_nat (N.size n)) as [|k] eqn:Ek; [lia|].
  simpl. replace (n =? 0) with false by (symmetry; apply N.eqb_neq; lia).
  rewrite toString16_loop_acc. f_equal.
  apply toString16_loop_fuel; lia.
Qed.

Lemma toString16_pos (n : N) : 0 < n -> toString16 n = hexOf n.
Proof.
  intros Hn. unfold toString16.
  by replace (n =? 0) with false by (symmetry; apply N.eqb_neq; lia).
Qed.

Lemma arrayifyInteger_loop_acc (fuel : nat) (n : N) (acc : bytes) :
  Rlp.arrayifyInteger_loop fuel n acc = Rlp.arrayifyInteger_loop fuel n [] ++ acc.
Proof.
  revert n acc. induction fuel as [|fuel IH]; intros n acc; simpl; [done|].
  destruct (n =? 0); [done|].
  rewrite IH. rewrite (IH _ [_]). by rewrite <- app_assoc.
Qed.

Lemma arrayifyInteger_loop_fuel (f1 f2 : nat) (n : N) (acc : bytes) :
  (N.to_nat (N.size n) <= f1)%nat -> (N.to_nat (N.size n) <= f2)%nat ->
  Rlp.arrayifyInteger_loop f1 n acc = Rlp.arrayifyInteger_loop f2 n acc.
Proof.
  revert f2 n acc. induction f1 as [|f1 IH]; intros f2 n acc H1 H2.
  - assert (n = 0) as -> by (destruct n; [done|]; simpl in H1; lia).
    by destruct f2.
  - destruct f2 as [|f2].
    + assert (n = 0) as -> by (destruct n; [done|]; simpl in H2; lia). done.
    + simpl. destruct (n =? 0) eqn:E; [done|].
      apply N.eqb_neq in E.
      pose proof (size_div_lt n 256 ltac:(lia) ltac:(lia)).
      apply IH; lia.
Qed.

Lemma arrayifyInteger_zero : Rlp.arrayifyInteger 0 = [].
Proof. reflexivity. Qed.

Lemma arrayifyInteger_step (n : N) :
  0 < n ->
  Rlp.arrayifyInteger n = Rlp.arrayifyInteger (n / 256) ++ [byte_of_N (n mod 256)].
Proof.
  intros Hn. unfold Rlp.arrayifyInteger.
  pose proof (size_div_lt n 256 Hn ltac:(lia)) as Hlt.
  destruct (N.to_nat (N.size n)) as [|k] eqn:Ek; [lia|].
  simpl. replace (n =? 0) with false by (symmetry; apply N.eqb_neq; lia).
  rewrite arrayifyInteger_loop_acc. f_equal.
  apply arrayifyInteger_loop_fuel; lia.
Qed.

Lemma encodeInt_digits_fuel (f1 f2 : nat) (n : N) :
  (N.to_nat (N.size n) <= f1)%nat -> (N.to_nat (N.size n) <= f2)%nat ->
  Spec.encodeInt_digits f1 n = Spec.encodeInt_digits f2 n.
Proof.
  revert f2 n. induction f1 as [|f1 IH]; intros f2 n H1 H2.
  - assert (n = 0) as -> by (destruct n; [done|]; simpl in H1; lia).
    by destruct f2.
  - destruct f2 as [|f2].
    + assert (n = 0) as -> by (destruct n; [done|]; simpl in H2; lia). done.
    + simpl. destruct (n =? 0) eqn:E; [done|].
      apply N.eqb_neq in E.
      pose proof (size_div_lt n 256 ltac:(lia) ltac:(lia)).
      f_equal. apply IH; lia.
Qed.

Lemma encodeInt_zero : Spec.encodeInt 0 = [].
Proof. reflexivity. Qed.

Lemma encodeInt_step (n : N) :
  0 < n -> Spec.encodeInt n = Spec.encodeInt (n / 256) ++ [byte_of_N (n mod 256)].
Proof.
  intros Hn. unfold Spec.encodeInt.
  pose proof (size_div_lt n 256 Hn ltac:(lia)) as Hlt.
  destruct (N.to_nat (N.size n)) as [|k] eqn:Ek; [lia|].
  simpl. replace (n =? 0) with false by (symmetry; apply N.eqb_neq; lia).
  f_equal. apply encodeInt_digits_fuel; lia.
Qed.

(** The length prefix of the code is the integer encoding of the spec. *)
Lemma arrayifyInteger_encodeInt (n : N) : Rlp.arrayifyInteger n = Spec.encodeInt n.
Proof.
  induction n as [n IH] using (well_founded_induction N.lt_wf_0).
  destruct (N.eq_dec n 0) as [->|Hn]; [reflexivity|].
  rewrite arrayifyInteger_step, encodeInt_step by lia.
  rewrite IH; [done|]. apply N.div_lt; lia.
Qed.

(** The integer encoding of the spec has the integer's value and no
    leading zero byte. *)
Lemma encodeInt_value (n : N) : be_value (Spec.encodeInt n) = n.
Proof.
  induction n as [n IH] using (well_founded_induction N.lt_wf_0).
  destruct (N.eq_dec n 0) as [->|Hn]; [reflexivity|].
  rewrite encodeInt_step by lia.
  rewrite be_value_snoc, to_N_byte_of_N, IH by (apply N.div_lt; lia).
  rewrite N.Div0.mod_mod.
  pose proof (N.div_mod' n 256). lia.
Qed.

Lemma encodeInt_head (n : N) : hd_error (Spec.encodeInt n) <> Some x00.
Proof.
  induction n as [n IH] using (well_founded_induction N.lt_wf_0).
  destruct (N.eq_dec n 0) as [->|Hn]; [done|].
  rewrite encodeInt_step by lia.
  destruct (N.eq_dec (n / 256) 0) as [E|E].
  - rewrite E, encodeInt_zero. simpl. intros [= Hb].
    apply (f_equal Byte.to_N) in Hb.
    rewrite to_N_byte_of_N, N.Div0.mod_mod in Hb.
    simpl in Hb. pose proof (N.div_mod' n 256). lia.
  - specialize (IH (n / 256) ltac:(apply N.div_lt; lia)).
    destruct (Spec.encodeInt (n / 256)) as [|b bs] eqn:Eb; [|exact IH].
    apply (f_equal be_value) in Eb. rewrite encodeInt_value in Eb. done.
Qed.

Lemma encodeInt_minimal (n : N) : Spec.MinimalBE n (Spec.encodeInt n).
Proof. split; [apply encodeInt_value | apply encodeInt_head]. Qed.

End DigitFacts.

(** ** [toBeHex] against the integer encoding of the spec *)

Module ToBeHexFacts.
Import Hex HexFacts DigitFacts.
Local Open Scope N_scope.

Lemma parsePairs_snoc (bs : bytes) (s : string) (hi lo : ascii) (h l : N) :
  parsePairs s = Some bs -> hexValue hi = Some h -> hexValue lo = Some l ->
  parsePairs (s ++ String hi (String lo "")) = Some (bs ++ [byte_of_N (16 * h + l)]).
Proof.
  intros Hs Hh Hl. revert s Hs.
  induction bs as [|b bs IH]; intros s Hs.
  - destruct s as [|a [|a' rest]]; [|done|].
    + rewrite append_nil_l. cbn [parsePairs]. by rewrite Hh, Hl.
    + cbn [parsePairs] in Hs.
      destruct (hexValue a), (hexValue a'), (parsePairs rest); done.
  - destruct s as [|a [|a' rest]]; [done|done|].
    rewrite !append_cons. cbn [parsePairs] in Hs |- *.
    destruct (hexValue a) as [va|]; [|done].
    destruct (hexValue a') as [va'|]; [|done].
    destruct (parsePairs rest) as [bs'|] eqn:Erest; [|done].
    injection Hs as <- <-.
    by rewrite (IH rest Erest).
Qed.

Lemma pad_snoc2 (s : string) (c d : ascii) :
  pad (s ++ String c (String d "")) = (pad s ++ String c (String d ""))%string.
Proof.
  unfold pad. rewrite length_append. simpl String.length.
  replace (String.length s + 2)%nat with (Datatypes.S (Datatypes.S (String.length s))) by lia.
  rewrite Nat.odd_succ_succ.
  destruct (Nat.odd (String.length s)); [|done].
  by rewrite append_assoc.
Qed.

Lemma hexOf_zero : hexOf 0 = ""%string.
Proof. reflexivity. Qed.

Lemma parsePairs_pad_hexOf (n : N) :
  0 < n -> parsePairs (pad (hexOf n)) = Some (Spec.encodeInt n).
Proof.
  induction n as [n IH] using (well_founded_induction N.lt_wf_0).
  intros Hn.
  assert (n mod 16 < 16) as Hd0 by (apply N.mod_upper_bound; lia).
  rewrite hexOf_step, encodeInt_step by done.
  destruct (N.ltb_spec n 16) as [Hsmall|Hbig].
  - rewrite (N.div_small n 16), (N.div_small n 256) by lia.
    rewrite hexOf_zero, encodeInt_zero, append_nil_l.
    unfold pad. cbn [String.length Nat.odd Nat.even negb].
    rewrite append_cons, append_nil_l. cbn [parsePairs].
    rewrite hexValue_nibble by done.
    change (hexValue "0") with (Some 0). cbn [app].
    do 3 f_equal. rewrite !N.mod_small by lia. lia.
  - assert ((n / 16) mod 16 < 16) as Hd1 by (apply N.mod_upper_bound; lia).
    rewrite (hexOf_step (n / 16)) by (apply N.div_str_pos; lia).
    rewrite N.Div0.div_div. change (16 * 16) with 256.
    rewrite append_assoc, append_cons, append_nil_l, pad_snoc2.
    assert (16 * ((n / 16) mod 16) + n mod 16 = n mod 256) as Hbyte.
    { pose proof (N.div_mod' n 16) as H1.
      pose proof (N.div_mod' (n / 16) 16) as H2.
      pose proof (N.div_mod' n 256) as H3.
      rewrite N.Div0.div_div in H2. change (16 * 16) with 256 in H2.
      lia. }
    destruct (N.eq_dec (n / 256) 0) as [E|E].
    + rewrite E, hexOf_zero, encodeInt_zero.
      change (pad "") with ""%string. rewrite append_nil_l. cbn [parsePairs].
      rewrite !hexValue_nibble by done. cbn [app]. by rewrite Hbyte.
    + erewrite parsePairs_snoc;
        [ | apply IH; [apply N.div_lt; lia | by apply N.neq_0_lt_0]
          | by apply hexValue_nibble | by apply hexValue_nibble ].
      by rewrite Hbyte.
Qed.

Lemma getBytes_toBeHex (n : N) : 0 < n -> getBytes (toBeHex n) = Some (Spec.encodeInt n).
Proof.
  intros Hn. unfold toBeHex. rewrite toString16_pos by done.
  apply (parsePairs_pad_hexOf n Hn).
Qed.

(** What the scripts put in the list for an integer is the integer
    encoding of the spec. *)
Lemma getBytes_toBeHex_or_empty (n : N) :
  getBytes (Delegate.toBeHex_or_empty n) = Some (Spec.encodeInt n).
Proof.
  unfold Delegate.toBeHex_or_empty.
  destruct (N.eqb_spec n 0) as [->|Hn]; [reflexivity|].
  apply getBytes_toBeHex. lia.
Qed.

(** Without the guard, 0 becomes one zero byte. *)
Lemma getBytes_toBeHex_zero : getBytes (toBeHex 0) = Some [x00].
Proof. reflexivity. Qed.

(** A transaction count within the safe integers gives the same item as a
    bigint would; above them [toBeHex] throws. *)
Lemma number_toBeHex_or_empty_safe (n : N) :
  n <= maxValue ->
  Delegate.number_toBeHex_or_empty n = Some (Delegate.toBeHex_or_empty n).
Proof.
  intros Hn. unfold Delegate.number_toBeHex_or_empty, Delegate.toBeHex_or_empty,
    toBeHex_number.
  destruct (n =? 0); [done|].
  by replace (n <=? maxValue) with true by (symmetry; by apply N.leb_le).
Qed.

Lemma number_toBeHex_or_empty_overflow (n : N) :
  maxValue < n -> Delegate.number_toBeHex_or_empty n = None.
Proof.
  intros Hn. unfold Delegate.number_toBeHex_or_empty, toBeHex_number.
  replace (n =? 0) with false
    by (symmetry; apply N.eqb_neq; unfold maxValue in Hn; lia).
  by replace (n <=? maxValue) with false by (symmetry; by apply N.leb_gt).
Qed.

End ToBeHexFacts.

(** ** [encodeRlp] against RLP as the spec defines it *)

Module RlpFacts.
Import Hex HexFacts DigitFacts ToBeHexFacts.
Local Open Scope N_scope.

Lemma encode_data_spec (data : bytes) : Rlp.encode_data data = Spec.rlp_string data.
Proof.
  unfold Rlp.encode_data, Spec.rlp_string.
  rewrite arrayifyInteger_encodeInt.
  destruct data as [|b [|b' rest]].
  - reflexivity.
  - cbn [length nth N.of_nat N.eqb Pos.eqb Pos.of_succ_nat andb].
    destruct (N.leb_spec (Byte.to_N b) 127), (N.ltb_spec (Byte.to_N b) 128);
      try lia; reflexivity.
  - replace (N.of_nat (length (b :: b' :: rest)) =? 1) with false
      by (symmetry; apply N.eqb_neq; simpl length; lia).
    cbn [andb].
    destruct (N.leb_spec (N.of_nat (length (b :: b' :: rest))) 55),
             (N.ltb_spec (N.of_nat (length (b :: b' :: rest))) 56);
      try lia; reflexivity.
Qed.

Lemma encode_payload_spec (items : list bytes) :
  Rlp.encode_payload (List.concat (map Spec.rlp_string items)) = Spec.rlp_list items.
Proof.
  unfold Rlp.encode_payload, Spec.rlp_list.
  rewrite arrayifyInteger_encodeInt.
  set (len := N.of_nat (length (List.concat (map Spec.rlp_string items)))).
  destruct (N.leb_spec len 55), (N.ltb_spec len 56); try lia; reflexivity.
Qed.

(** [_encode] on a flat list of three hex strings. *)
Lemma encode_three (a b c : string) (x y z : bytes) :
  getBytes a = Some x -> getBytes b = Some y -> getBytes c = Some z ->
  Rlp._encode (Rlp.Array [Rlp.Data a; Rlp.Data b; Rlp.Data c])
  = Some (Spec.rlp_list [x; y; z]).
Proof.
  intros Ha Hb Hc. cbn [Rlp._encode]. rewrite Ha, Hb, Hc.
  rewrite !encode_data_spec, <- encode_payload_spec. reflexivity.
Qed.

Lemma hexDigits_app (xs ys : bytes) :
  hexDigits (xs ++ ys) = (hexDigits xs ++ hexDigits ys)%string.
Proof.
  induction xs as [|x xs IH]; [done|].
  cbn [app hexDigits]. by rewrite IH, !append_cons.
Qed.

(** [concat(['0x05', hexlify(rlp)])] is the hex string of [0x05 || rlp]. *)
Lemma concat_magic (rlp : bytes) :
  concat ["0x05"%string; hexlify rlp] = Some (hexlify (x05 :: rlp)).
Proof.
  unfold concat. cbn [concat_digits].
  rewrite getBytes_hexlify. change (getBytes "0x05") with (Some [x05]).
  rewrite append_nil_r. reflexivity.
Qed.

Section Keccak.
Variable keccak : bytes -> bytes.

(** The digest of a flat list of three items behind the magic byte. *)
Lemma hash_three (a b c : string) (x y z : bytes) :
  getBytes a = Some x -> getBytes b = Some y -> getBytes c = Some z ->
  match Rlp.encodeRlp (Rlp.Array [Rlp.Data a; Rlp.Data b; Rlp.Data c]) with
  | Some rlp =>
      match concat ["0x05"%string; rlp] with
      | Some preimage => Delegate.keccak256 keccak preimage
      | None => None
      end
  | None => None
  end = Some (hexlify (keccak (x05 :: Spec.rlp_list [x; y; z]))).
Proof.
  intros Ha Hb Hc. unfold Rlp.encodeRlp.
  rewrite (encode_three a b c x y z Ha Hb Hc), concat_magic.
  unfold Delegate.keccak256. by rewrite getBytes_hexlify.
Qed.

(** [messageHash] of [src/delegate.ts] is the hash the spec describes, for
    every chain id, every address and every nonce a number can carry. *)
Lemma delegate_messageHash_spec (chainId authNonce : N) (delegatorAddr : string)
    (delegateAddress : bytes) :
  authNonce <= maxValue ->
  getBytes delegatorAddr = Some delegateAddress ->
  Delegate.messageHash keccak chainId delegatorAddr authNonce
  = Some (hexlify (keccak (Spec.auth_preimage chainId delegateAddress authNonce))).
Proof.
  intros Hnonce Haddr. unfold Delegate.messageHash, Spec.auth_preimage. cbn zeta.
  rewrite number_toBeHex_or_empty_safe by done.
  apply hash_three; [apply getBytes_toBeHex_or_empty | done | apply getBytes_toBeHex_or_empty].
Qed.

(** So is the digest [hash] that [src/delegate_and_execute.ts] logs as the
    new hash. *)
Lemma sponsored_hash_spec (chainId authNonce : N) (delegatorAddr : string)
    (delegateAddress : bytes) :
  authNonce <= maxValue ->
  getBytes delegatorAddr = Some delegateAddress ->
  SponsoredBatch.hash keccak chainId delegatorAddr authNonce
  = Some (hexlify (keccak (Spec.auth_preimage chainId delegateAddress authNonce))).
Proof.
  intros Hnonce Haddr. unfold SponsoredBatch.hash, Spec.auth_preimage. cbn zeta.
  rewrite number_toBeHex_or_empty_safe by done.
  apply hash_three; [apply getBytes_toBeHex_or_empty | done | apply getBytes_toBeHex_or_empty].
Qed.

(** The digest [messageHash] that [src/delegate_and_execute.ts] signs agrees
    with the spec for every chain id except 0. *)
Lemma sponsored_messageHash_nonzero (chainId authNonce : N) (delegatorAddr : string)
    (delegateAddress : bytes) :
  0 < chainId ->
  authNonce <= maxValue ->
  getBytes delegatorAddr = Some delegateAddress ->
  SponsoredBatch.messageHash keccak chainId delegatorAddr authNonce
  = Some (hexlify (keccak (Spec.auth_preimage chainId delegateAddress authNonce))).
Proof.
  intros Hc Hnonce Haddr.
  unfold SponsoredBatch.messageHash, SponsoredBatch.rlpEncoded, Spec.auth_preimage.
  cbn zeta. rewrite number_toBeHex_or_empty_safe by done.
  apply hash_three; [by apply getBytes_toBeHex | done | apply getBytes_toBeHex_or_empty].
Qed.

(** With chain id 0, which no network has, the unguarded [toBeHex] would put
    the one-byte string [0x00] where the authorization hash has the empty
    string. *)
Lemma sponsored_messageHash_zero (authNonce : N) (delegatorAddr : string)
    (delegateAddress : bytes) :
  authNonce <= maxValue ->
  getBytes delegatorAddr = Some delegateAddress ->
  SponsoredBatch.messageHash keccak 0 delegatorAddr authNonce
  = Some (hexlify (keccak
      (x05 :: Spec.rlp_list [[x00]; delegateAddress; Spec.encodeInt authNonce]))).
Proof.
  intros Hnonce Haddr.
  unfold SponsoredBatch.messageHash, SponsoredBatch.rlpEncoded. cbn zeta.
  rewrite number_toBeHex_or_empty_safe by done.
  apply hash_three; [apply getBytes_toBeHex_zero | done | apply getBytes_toBeHex_or_empty].
Qed.

End Keccak.
End RlpFacts.

(** ** The authorization hash (C4) *)

(** C4: the authorization hash is [keccak256] of the single byte [0x05]
    followed by the RLP encoding of the list [[chainId, address, nonce]],
    where an integer is its minimal big-endian byte string, without a
    leading zero byte, and 0 is the empty string.  This holds of
    [messageHash] of [src/delegate.ts] (and of the second script of
    [src/delegate_and_execute.ts], which has the same text) for every chain
    id, and of the digest that the first script of
    [src/delegate_and_execute.ts] signs for every chain id a network can
    have, that is every one but 0; in both, the address is a hex string of
    20 bytes and the nonce is a transaction count held in a number. *)
Theorem authorization_hash_conforms
    (keccak : bytes -> bytes) (chainId authNonce : N) (delegatorAddr : string)
    (delegateAddress : bytes) :
  Hex.getBytes delegatorAddr = Some delegateAddress ->
  length delegateAddress = 20%nat ->
  (authNonce <= Hex.maxValue)%N ->
  let digest :=
    Some (Hex.hexlify (keccak
      (x05 :: Spec.rlp_list [Spec.encodeInt chainId; delegateAddress;
                             Spec.encodeInt authNonce]))) in
  Delegate.messageHash keccak chainId delegatorAddr authNonce = digest /\
  ((0 < chainId)%N ->
   SponsoredBatch.messageHash keccak chainId delegatorAddr authNonce = digest) /\
  Spec.MinimalBE chainId (Spec.encodeInt chainId) /\
  Spec.MinimalBE authNonce (Spec.encodeInt authNonce) /\
  Spec.encodeInt 0 = [].
Proof.
  intros Haddr _ Hnonce digest.
  split; [by apply RlpFacts.delegate_messageHash_spec|].
  split; [intros Hpos; by apply RlpFacts.sponsored_messageHash_nonzero|].
  split; [apply DigitFacts.encodeInt_minimal|].
  split; [apply DigitFacts.encodeInt_minimal | reflexivity].
Qed.

(** The delegation of the recorded run: Sepolia, nonce 0. *)
Lemma authorization_hash_conforms_witness :
  Delegate.messageHash (fun preimage => preimage) 11155111
    "0x0eacc2307f0113f26840dd1dac8dc586259994dd" 0
  = Some "0x05da83aa36a7940eacc2307f0113f26840dd1dac8dc586259994dd80"%string /\
  SponsoredBatch.messageHash (fun preimage => preimage) 11155111
    "0x0eacc2307f0113f26840dd1dac8dc586259994dd" 0
  = Some "0x05da83aa36a7940eacc2307f0113f26840dd1dac8dc586259994dd80"%string.
Proof.
  destruct (authorization_hash_conforms (fun preimage => preimage) 11155111 0
              "0x0eacc2307f0113f26840dd1dac8dc586259994dd"
              [x0e; xac; xc2; x30; x7f; x01; x13; xf2; x68; x40;
               xdd; x1d; xac; x8d; xc5; x86; x25; x99; x94; xdd]
              eq_refl eq_refl ltac:(vm_compute; discriminate))
    as (Hdelegate & Hsponsored & _).
  split; [exact Hdelegate | exact (Hsponsored ltac:(reflexivity))].
Defined.

(** ** The forwarding loop *)

Section LoopFacts.
Context {S : Type} `{Host S}.

(** The loop of [executeBatch] computes what [run_calls] describes. *)
Lemma forward_run_calls (env : Env) (calls : list Call) (i : nat)
    (results : list bytes) (l : Ledger S World) :
  forward env calls i results l =
  match run_calls env calls l with
  | inl (r, l') => Revert (stop_error r) l'
  | inr (rets, l') => Return (fill i rets results) l'
  end.
Proof.
  revert i results l.
  induction calls as [|c calls IH]; intros i results l; [reflexivity|].
  cbn [forward run_calls]. unfold bind at 1, low_level_call.
  destruct (call env c l) as [[ok ret_data] l'].
  destruct ok; [|reflexivity].
  unfold call_passed, stop_error, require, bind, ret, revert.
  cbv [fst snd andb negb].
  destruct (0 <? length ret_data)%nat.
  - destruct (abi_decode_bool ret_data) as [[|]|] eqn:E;
      try (cbv beta iota; rewrite E; reflexivity).
    rewrite IH.
    by destruct (run_calls env calls l') as [[r l'']|[rets l'']].
  - rewrite IH.
    by destruct (run_calls env calls l') as [[r l'']|[rets l'']].
Qed.

Lemma run_calls_length (env : Env) (calls : list Call) (l l' : Ledger S World)
    (rets : list bytes) :
  run_calls env calls l = inr (rets, l') -> length rets = length calls.
Proof.
  revert l rets. induction calls as [|c calls IH]; intros l rets; cbn [run_calls].
  - by intros [= <- <-].
  - destruct (call env c l) as [r l1]. destruct (call_passed r); [|done].
    destruct (run_calls env calls l1) as [[r' l2]|[rets' l2]] eqn:E; [done|].
    intros [= <- <-]. cbn [length]. f_equal. by apply (IH l1).
Qed.

Lemma fill_app (pre rets post : list bytes) (old : list bytes) :
  length old = length rets ->
  fill (length pre) rets (pre ++ old ++ post) = pre ++ rets ++ post.
Proof.
  revert pre old. induction rets as [|r rets IH]; intros pre old Hlen.
  - by destruct old.
  - destruct old as [|o old]; [done|]. cbn [fill].
    rewrite insert_app_r_alt by lia. rewrite Nat.sub_diag. cbn [app].
    change (<[0%nat:=r]> (o :: old ++ post)) with (r :: old ++ post).
    specialize (IH (pre ++ [r]) old ltac:(by injection Hlen)).
    rewrite length_app in IH. cbn [length] in IH.
    rewrite Nat.add_1_r in IH. rewrite <- !app_assoc in IH. exact IH.
Qed.

(** Filling a fresh array from index 0 gives the return data in order. *)
Lemma fill_fresh (rets : list bytes) :
  fill 0 rets (replicate (length rets) []) = rets.
Proof.
  pose proof (fill_app [] rets [] (replicate (length rets) [])) as Hf.
  rewrite !app_nil_r in Hf. apply Hf. by rewrite length_replicate.
Qed.

(** A call that fails in the sense of C1 does not pass. *)
Lemma call_failed_not_passed (r : bool * bytes) :
  call_failed r = true -> call_passed r = false.
Proof.
  unfold call_failed, call_passed. destruct r as [ok ret_data]; cbn [fst snd].
  destruct ok; cbn [negb orb andb]; [|done].
  destruct (0 <? length ret_data)%nat; [|done]. cbn [andb].
  by destruct (abi_decode_bool ret_data) as [[|]|].
Qed.

Lemma call_failed_stop_error (r : bool * bytes) :
  call_failed r = true ->
  stop_error r = ErrorString "BatchDelegator: call failed" \/
  stop_error r = ErrorString "BatchDelegator: call returned false".
Proof.
  unfold call_failed, stop_error. destruct r as [ok ret_data]; cbn [fst snd].
  destruct ok; cbn [negb orb]; [|by left].
  destruct (0 <? length ret_data)%nat; [|done]. cbn [andb].
  destruct (abi_decode_bool ret_data) as [[|]|]; [done| by right |done].
Qed.

(** Whatever stops the loop, it is not one of the contract's own errors. *)
Lemma stop_error_cases (r : bool * bytes) :
  stop_error r = ErrorString "BatchDelegator: call failed" \/
  stop_error r = ErrorString "BatchDelegator: call returned false" \/
  stop_error r = DecodeFailure.
Proof.
  unfold stop_error. destruct (negb (fst r)); [by left|].
  destruct (abi_decode_bool (snd r)); [right; by left | right; by right].
Qed.

End LoopFacts.

(** ** The entry points of the allow-list contract, case by case *)

Module WithCallersFacts.
Import WithCallers.

Section Facts.
Context `{Host Storage}.

Lemma initialize_cases (a : address) (l : Ledger Storage World) :
  initialize a l =
  if initialized (store l) then Revert AlreadyInitialized l
  else Return tt (mkLedger (set_admin a (set_initialized true (store l)))
                    (events l ++ [AdminChanged 0 a]) (world l)).
Proof.
  unfold initialize, bind, read. by destruct (initialized (store l)).
Qed.

Lemma setAdmin_cases (env : Env) (sc : SignedAdminChange) (l : Ledger Storage World) :
  setAdmin env sc l =
  if block_timestamp env >? sc_deadline sc then Revert DeadlineExpired l
  else if isUsed (store l) (sc_nonce sc) then Revert NonceAlreadyUsed l
  else
    match ECDSA_recover
            (toEthSignedMessageHash
               (getAdminChangeHash (sc_newAdmin sc) (sc_nonce sc) (sc_deadline sc)))
            (sc_signature sc) with
    | None => Revert ECDSAFailure (mark_nonce (sc_nonce sc) l)
    | Some signer =>
        if signer =? admin (store l)
        then Return tt (change_admin (sc_newAdmin sc) (mark_nonce (sc_nonce sc) l))
        else Revert InvalidSignature (mark_nonce (sc_nonce sc) l)
    end.
Proof.
  unfold setAdmin.
  destruct (block_timestamp env >? sc_deadline sc); [reflexivity|].
  unfold bind at 1. unfold read at 1.
  destruct (isUsed (store l) (sc_nonce sc)); [reflexivity|].
  unfold bind at 1. unfold write at 1. unfold bind at 1. unfold recover.
  destruct (ECDSA_recover _ _) as [signer|]; [|reflexivity].
  unfold ret at 1. unfold bind at 1. unfold read at 1.
  cbn [store admin set_usedNonce].
  by destruct (signer =? admin (store l)).
Qed.

Lemma updateCallers_loop_all (callers : list address) (isAdding : list bool) (i : nat)
    (l : Ledger Storage World) :
  length callers = length (drop i isAdding) ->
  updateCallers_loop callers isAdding i l
  = Return tt (update_all callers (drop i isAdding) l).
Proof.
  revert i l. induction callers as [|c callers IH]; intros i l Hlen.
  - by destruct (drop i isAdding).
  - cbn [updateCallers_loop].
    destruct (isAdding !! i) as [flag|] eqn:E.
    + rewrite (drop_S _ _ _ E) in Hlen |- *.
      cbn [update_all]. unfold bind at 1, write at 1. unfold bind at 1, emit at 1.
      cbn [store events world]. apply IH. by injection Hlen.
    + apply lookup_ge_None in E. rewrite length_drop in Hlen.
      cbn [length] in Hlen. lia.
Qed.

Lemma updateCallers_cases (env : Env) (su : SignedCallerUpdate) (l : Ledger Storage World) :
  updateCallers env su l =
  if negb (length (su_callers su) =? length (su_isAdding su))%nat
  then Revert ArrayLengthMismatch l
  else if block_timestamp env >? su_deadline su then Revert DeadlineExpired l
  else if isUsed (store l) (su_nonce su) then Revert NonceAlreadyUsed l
  else
    match ECDSA_recover
            (toEthSignedMessageHash
               (getCallerUpdateHash (su_callers su) (su_isAdding su) (su_nonce su)
                  (su_deadline su)))
            (su_signature su) with
    | None => Revert ECDSAFailure (mark_nonce (su_nonce su) l)
    | Some signer =>
        if signer =? admin (store l)
        then Return tt (update_all (su_callers su) (su_isAdding su)
                          (mark_nonce (su_nonce su) l))
        else Revert InvalidSignature (mark_nonce (su_nonce su) l)
    end.
Proof.
  unfold updateCallers.
  destruct (length (su_callers su) =? length (su_isAdding su))%nat eqn:Elen;
    cbn [negb]; [|reflexivity].
  apply Nat.eqb_eq in Elen.
  destruct (block_timestamp env >? su_deadline su); [reflexivity|].
  unfold bind at 1. unfold read at 1.
  destruct (isUsed (store l) (su_nonce su)); [reflexivity|].
  unfold bind at 1. unfold write at 1. unfold bind at 1. unfold recover.
  destruct (ECDSA_recover _ _) as [signer|]; [|reflexivity].
  unfold ret at 1. unfold bind at 1. unfold read at 1.
  cbn [store admin set_usedNonce].
  destruct (signer =? admin (store l)); cbn [negb]; [|reflexivity].
  by rewrite updateCallers_loop_all.
Qed.

Lemma executeBatch_cases (env : Env) (sb : SignedBatch) (l : Ledger Storage World) :
  executeBatch env sb l =
  if block_timestamp env >? sb_deadline sb then Revert DeadlineExpired l
  else if isUsed (store l) (sb_nonce sb) then Revert NonceAlreadyUsed l
  else
    match ECDSA_recover
            (toEthSignedMessageHash
               (getBatchHash (sb_calls sb) (sb_nonce sb) (sb_deadline sb)))
            (sb_signature sb) with
    | None => Revert ECDSAFailure (mark_nonce (sb_nonce sb) l)
    | Some signer =>
        if isAllowed (store l) signer then
          match run_calls env (sb_calls sb) (mark_nonce (sb_nonce sb) l) with
          | inl (r, l') => Revert (stop_error r) l'
          | inr (rets, l') =>
              Return rets
                (mkLedger (store l')
                   (events l' ++ [BatchExecuted signer (msg_sender env) (sb_calls sb) rets])
                   (world l'))
          end
        else Revert NotAllowedCaller (mark_nonce (sb_nonce sb) l)
    end.
Proof.
  unfold executeBatch.
  destruct (block_timestamp env >? sb_deadline sb); [reflexivity|].
  unfold bind at 1. unfold read at 1.
  destruct (isUsed (store l) (sb_nonce sb)); [reflexivity|].
  unfold bind at 1. unfold write at 1. unfold bind at 1. unfold recover.
  destruct (ECDSA_recover _ _) as [signer|]; [|reflexivity].
  unfold ret at 1. unfold bind at 1. unfold read at 1.
  change (isAllowed (store (mkLedger (set_usedNonce (sb_nonce sb) true (store l))
                              (events l) (world l))) signer)
    with (isAllowed (store l) signer).
  destruct (isAllowed (store l) signer); cbn [negb]; [|reflexivity].
  unfold bind at 1. rewrite forward_run_calls.
  fold (mark_nonce (sb_nonce sb) l).
  destruct (run_calls env (sb_calls sb) (mark_nonce (sb_nonce sb) l))
    as [[r l']|[rets l']] eqn:Erun; [reflexivity|].
  apply run_calls_length in Erun. rewrite <- Erun, fill_fresh.
  reflexivity.
Qed.

End Facts.
End WithCallersFacts.

(** ** Marks that stay: [initialized] and [usedNonces] *)

Module MarkFacts.
Import WithCallers WithCallersFacts.

Section Facts.
Context `{Host Storage}.

Lemma keeps_marks_refl (l : Ledger Storage World) : keeps_marks l l.
Proof. by split. Qed.

Lemma keeps_marks_trans (l1 l2 l3 : Ledger Storage World) :
  keeps_marks l1 l2 -> keeps_marks l2 l3 -> keeps_marks l1 l3.
Proof. intros [Hi1 Hu1] [Hi2 Hu2]. split; auto. Qed.

Lemma isUsed_mark (n m : uint256) (l : Ledger Storage World) :
  isUsed (store (mark_nonce n l)) m = if decide (n = m) then true else isUsed (store l) m.
Proof.
  unfold isUsed, mark_nonce. cbn [store set_usedNonce usedNonces].
  rewrite lookup_insert. by destruct (decide (n = m)).
Qed.

Lemma isUsed_mark_same (n : uint256) (l : Ledger Storage World) :
  isUsed (store (mark_nonce n l)) n = true.
Proof. rewrite isUsed_mark. by destruct (decide (n = n)). Qed.

Lemma keeps_marks_mark (n : uint256) (l : Ledger Storage World) :
  keeps_marks l (mark_nonce n l).
Proof.
  split; [done|]. intros m Hm. rewrite isUsed_mark.
  by destruct (decide (n = m)).
Qed.

Lemma update_all_store (callers : list address) (flags : list bool)
    (l : Ledger Storage World) :
  admin (store (update_all callers flags l)) = admin (store l) /\
  usedNonces (store (update_all callers flags l)) = usedNonces (store l) /\
  initialized (store (update_all callers flags l)) = initialized (store l) /\
  world (update_all callers flags l) = world l.
Proof.
  revert flags l. induction callers as [|c callers IH]; intros flags l; [done|].
  destruct flags as [|f flags]; [done|]. cbn [update_all].
  destruct (IH flags (mkLedger (set_allowedCaller c f (store l))
                        (events l ++ [CallerUpdated c f]) (world l)))
    as (Ha & Hu & Hi & Hw).
  by rewrite Ha, Hu, Hi, Hw.
Qed.

Lemma keeps_marks_update_all (callers : list address) (flags : list bool)
    (l : Ledger Storage World) :
  keeps_marks l (update_all callers flags l).
Proof.
  destruct (update_all_store callers flags l) as (_ & Hu & Hi & _).
  unfold keeps_marks, isUsed. by rewrite Hu, Hi.
Qed.

Lemma keeps_marks_change_admin (a : address) (l : Ledger Storage World) :
  keeps_marks l (change_admin a l).
Proof. by split. Qed.

Section KeepMarks.
Hypothesis Hkeep : calls_keep_marks.

Lemma run_calls_keeps (env : Env) (calls : list Call) (l : Ledger Storage World) :
  match run_calls env calls l with
  | inl (_, l') => keeps_marks l l'
  | inr (_, l') => keeps_marks l l'
  end.
Proof using Hkeep.
  revert l. induction calls as [|c calls IH]; intros l; cbn [run_calls].
  - apply keeps_marks_refl.
  - pose proof (Hkeep env c l) as Hc. cbn zeta in Hc.
    destruct (call env c l) as [r l1]. cbn [snd] in Hc.
    destruct (call_passed r); [|exact Hc].
    specialize (IH l1).
    destruct (run_calls env calls l1) as [[r' l2]|[rets l2]];
      by apply (keeps_marks_trans l l1 l2).
Qed.

(** Every top-level invocation keeps every mark. *)
Lemma invoke_keeps (env : Env) (op : Op) (l : Ledger Storage World) :
  keeps_marks l (snd (transact (invoke env op) l)).
Proof using Hkeep.
  unfold transact.
  destruct op as [a|sc|su|sb]; cbn [invoke]; unfold bind.
  - rewrite initialize_cases.
    destruct (initialized (store l)) eqn:E; cbn [snd]; [apply keeps_marks_refl|].
    split; [done|]. intros n Hn. exact Hn.
  - rewrite setAdmin_cases.
    destruct (block_timestamp env >? sc_deadline sc); [apply keeps_marks_refl|].
    destruct (isUsed (store l) (sc_nonce sc)); [apply keeps_marks_refl|].
    destruct (ECDSA_recover _ _) as [signer|]; [|apply keeps_marks_refl].
    destruct (signer =? admin (store l)); [|apply keeps_marks_refl].
    cbn [snd ret].
    eapply keeps_marks_trans; [apply (keeps_marks_mark (sc_nonce sc))|].
    apply keeps_marks_change_admin.
  - rewrite updateCallers_cases.
    destruct (negb _); [apply keeps_marks_refl|].
    destruct (block_timestamp env >? su_deadline su); [apply keeps_marks_refl|].
    destruct (isUsed (store l) (su_nonce su)); [apply keeps_marks_refl|].
    destruct (ECDSA_recover _ _) as [signer|]; [|apply keeps_marks_refl].
    destruct (signer =? admin (store l)); [|apply keeps_marks_refl].
    cbn [snd ret].
    eapply keeps_marks_trans; [apply (keeps_marks_mark (su_nonce su))|].
    apply keeps_marks_update_all.
  - rewrite executeBatch_cases.
    destruct (block_timestamp env >? sb_deadline sb); [apply keeps_marks_refl|].
    destruct (isUsed (store l) (sb_nonce sb)); [apply keeps_marks_refl|].
    destruct (ECDSA_recover _ _) as [signer|]; [|apply keeps_marks_refl].
    destruct (isAllowed (store l) signer); [|apply keeps_marks_refl].
    pose proof (run_calls_keeps env (sb_calls sb) (mark_nonce (sb_nonce sb) l)) as Hr.
    destruct (run_calls env (sb_calls sb) (mark_nonce (sb_nonce sb) l))
      as [[r l']|[rets l']]; [apply keeps_marks_refl|].
    cbn [snd].
    eapply keeps_marks_trans; [apply (keeps_marks_mark (sb_nonce sb))|].
    exact Hr.
Qed.

(** So does every history. *)
Lemma run_keeps (txs : list (Env * Op)) (l : Ledger Storage World) :
  keeps_marks l (run txs l).
Proof using Hkeep.
  revert l. induction txs as [|[env op] txs IH]; intros l; cbn [run fold_left].
  - apply keeps_marks_refl.
  - eapply keeps_marks_trans; [apply (invoke_keeps env op)|]. apply IH.
Qed.

(** A successful invocation leaves its nonce marked, and found it
    unmarked. *)
Lemma invoke_success_marks (env : Env) (op : Op) (l l' : Ledger Storage World)
    (n : uint256) (res : list bytes) :
  op_nonce op = Some n ->
  transact (invoke env op) l = (Success res, l') ->
  isUsed (store l) n = false /\ isUsed (store l') n = true.
Proof using Hkeep.
  unfold transact.
  destruct op as [a|sc|su|sb]; cbn [invoke op_nonce]; unfold bind; [done|..];
    intros [= <-].
  - rewrite setAdmin_cases.
    destruct (block_timestamp env >? sc_deadline sc); [done|].
    destruct (isUsed (store l) (sc_nonce sc)) eqn:Eu; [done|].
    destruct (ECDSA_recover _ _) as [signer|]; [|done].
    destruct (signer =? admin (store l)); [|done].
    intros [= <- <-]. split; [done|]. apply isUsed_mark_same.
  - rewrite updateCallers_cases.
    destruct (negb _); [done|].
    destruct (block_timestamp env >? su_deadline su); [done|].
    destruct (isUsed (store l) (su_nonce su)) eqn:Eu; [done|].
    destruct (ECDSA_recover _ _) as [signer|]; [|done].
    destruct (signer =? admin (store l)); [|done].
    intros [= <- <-]. split; [done|].
    apply (keeps_marks_update_all _ _ (mark_nonce (su_nonce su) l)).
    apply isUsed_mark_same.
  - rewrite executeBatch_cases.
    destruct (block_timestamp env >? sb_deadline sb); [done|].
    destruct (isUsed (store l) (sb_nonce sb)) eqn:Eu; [done|].
    destruct (ECDSA_recover _ _) as [signer|]; [|done].
    destruct (isAllowed (store l) signer); [|done].
    pose proof (run_calls_keeps env (sb_calls sb) (mark_nonce (sb_nonce sb) l)) as Hr.
    destruct (run_calls env (sb_calls sb) (mark_nonce (sb_nonce sb) l))
      as [[r l1]|[rets l1]]; [done|].
    intros [= <- <-]. split; [done|]. cbn [store].
    apply Hr, isUsed_mark_same.
Qed.

End KeepMarks.

(** An operation that gets as far as its nonce check and presents a used
    nonce fails with [NonceAlreadyUsed]; one that presents a used nonce
    never succeeds. *)
Lemma invoke_used_nonce (env : Env) (op : Op) (l : Ledger Storage World) (n : uint256) :
  op_nonce op = Some n ->
  isUsed (store l) n = true ->
  (exists e, transact (invoke env op) l = (Reverted e, l)) /\
  (reaches_nonce_check env op = true ->
   transact (invoke env op) l = (Reverted NonceAlreadyUsed, l)).
Proof.
  unfold transact.
  destruct op as [a|sc|su|sb]; cbn [invoke op_nonce reaches_nonce_check];
    unfold bind; [done|..]; intros [= <-] Hused.
  - rewrite setAdmin_cases, Hused.
    destruct (block_timestamp env >? sc_deadline sc); cbn [negb]; split; eauto; done.
  - rewrite updateCallers_cases, Hused.
    destruct (length (su_callers su) =? length (su_isAdding su))%nat;
      cbn [negb andb]; [|split; eauto; done].
    destruct (block_timestamp env >? su_deadline su); cbn [negb]; split; eauto; done.
  - rewrite executeBatch_cases, Hused.
    destruct (block_timestamp env >? sb_deadline sb); cbn [negb]; split; eauto; done.
Qed.

End Facts.
End MarkFacts.

(** ** The demo host *)

Lemma demo_keeps_marks : @calls_keep_marks (Demo.host WithCallers.Storage).
Proof.
  intros env c l. cbn [call Demo.host]. unfold Demo.demo_call.
  destruct (fst (Demo.reply (target c))); by split.
Qed.

Lemma gtb_false (a b : Z) : a <= b -> (a >? b) = false.
Proof. intros Hab. destruct (Z.gtb_spec a b); [lia|done]. Qed.

Lemma gtb_true (a b : Z) : b < a -> (a >? b) = true.
Proof. intros Hab. destruct (Z.gtb_spec a b); [done|lia]. Qed.

(** ** Atomic batches (C1) *)

Section Atomic.
Import WithCallers WithCallersFacts.
Context `{Host Storage}.

(** C1: for a batch that passes the deadline, nonce and allow-list checks,
    if the loop reaches a call that fails (the low-level call reports
    failure, or its non-empty return data decodes to [false]), the body of
    [executeBatch] reverts there, the invocation leaves the ledger exactly
    as it found it (storage, events and the rest of the world), and the
    nonce is still unused. *)
Theorem executeBatch_all_or_nothing (env : Env) (sb : SignedBatch)
    (l l_stop : Ledger Storage World) (signer : address) (r : bool * bytes) :
  block_timestamp env <= sb_deadline sb ->
  isUsed (store l) (sb_nonce sb) = false ->
  ECDSA_recover
    (toEthSignedMessageHash (getBatchHash (sb_calls sb) (sb_nonce sb) (sb_deadline sb)))
    (sb_signature sb) = Some signer ->
  isAllowed (store l) signer = true ->
  run_calls env (sb_calls sb) (mark_nonce (sb_nonce sb) l) = inl (r, l_stop) ->
  call_failed r = true ->
  executeBatch env sb l = Revert (stop_error r) l_stop /\
  transact (executeBatch env sb) l = (Reverted (stop_error r), l) /\
  (stop_error r = ErrorString "BatchDelegator: call failed" \/
   stop_error r = ErrorString "BatchDelegator: call returned false") /\
  isUsed (store (snd (transact (executeBatch env sb) l))) (sb_nonce sb) = false.
Proof.
  intros Hdeadline Hnonce Hsig Hallowed Hrun Hfail.
  assert (executeBatch env sb l = Revert (stop_error r) l_stop) as Hbody.
  { rewrite executeBatch_cases, gtb_false, Hnonce, Hsig, Hallowed, Hrun by done.
    reflexivity. }
  unfold transact. rewrite Hbody. cbn [snd].
  split; [done|]. split; [done|]. split; [by apply call_failed_stop_error | done].
Qed.

End Atomic.

(** A batch of three calls on the demo host: the first delivers, the second
    fails, the third is never made. *)
Lemma executeBatch_all_or_nothing_witness :
  let sb := mkSignedBatch [mkCall 1 0 []; mkCall 2 0 []; mkCall 4 0 []] 5 1000 [x14] in
  @transact _ (list bytes)
    (@WithCallers.executeBatch (Demo.host _) Demo.now sb) Demo.ready
  = (Reverted (ErrorString "BatchDelegator: call failed"), Demo.ready).
Proof.
  intros sb.
  refine (proj1 (proj2 (@executeBatch_all_or_nothing (Demo.host _) Demo.now sb
    Demo.ready
    (mkLedger (WithCallers.mkStorage 10 {[ 20 := true ]} {[ 5 := true ]} true) []
       [(1, 0)])
    20 (false, []) _ _ _ _ _ _))).
  - vm_compute. discriminate.
  - reflexivity.
  - reflexivity.
  - reflexivity.
  - reflexivity.
  - reflexivity.
Defined.

(** ** Nonces (C2, C10) *)

(** C2 as stated fails twice on the demo host.  A [setAdmin] signed by the
    wrong key reverts after it has marked nonce 7, the mark is rolled back,
    and a second [setAdmin] with nonce 7 succeeds.  After that success, a
    third [setAdmin] with nonce 7 and a deadline in the past fails with
    [DeadlineExpired], not with [NonceAlreadyUsed]. *)
Lemma nonce_reuse_counterexample :
  let wrong_key := mkSignedAdminChange 11 7 2000 [x14] in
  let right_key := mkSignedAdminChange 11 7 2000 [x0a] in
  let too_late := mkSignedAdminChange 12 7 500 [x0b] in
  let first := transact (@WithCallers.setAdmin (Demo.host _) Demo.now wrong_key) Demo.ready in
  let second := transact (@WithCallers.setAdmin (Demo.host _) Demo.now right_key) (snd first) in
  let third := transact (@WithCallers.setAdmin (Demo.host _) Demo.now too_late) (snd second) in
  fst first = Reverted InvalidSignature /\
  fst second = Success tt /\
  WithCallers.isUsed (store (snd second)) 7 = true /\
  fst third = Reverted DeadlineExpired.
Proof. vm_compute. done. Qed.

Section Nonces.
Import WithCallers WithCallersFacts MarkFacts.
Context `{Host Storage}.

(** C2, amended: once an invocation of [executeBatch], [setAdmin] or
    [updateCallers] presenting nonce [n] has succeeded, every later
    invocation of any of the three that presents [n] and gets as far as its
    nonce check (deadline not passed; for [updateCallers], arrays of equal
    length) fails with [NonceAlreadyUsed], whatever else it carries.  An
    invocation that fails leaves the ledger as it was, its nonce included. *)
Theorem nonce_single_use :
  calls_keep_marks ->
  (forall env1 op1 l res l1 n,
     op_nonce op1 = Some n ->
     transact (invoke env1 op1) l = (Success res, l1) ->
     forall txs env2 op2,
       op_nonce op2 = Some n ->
       reaches_nonce_check env2 op2 = true ->
       transact (invoke env2 op2) (run txs l1)
       = (Reverted NonceAlreadyUsed, run txs l1)) /\
  (forall env op (l : Ledger Storage World) e,
     fst (transact (invoke env op) l) = Reverted e ->
     snd (transact (invoke env op) l) = l).
Proof.
  intros Hkeep. split.
  - intros env1 op1 l res l1 n Hn1 Hok txs env2 op2 Hn2 Hreach.
    destruct (invoke_success_marks Hkeep env1 op1 l l1 n res Hn1 Hok) as [_ Hmarked].
    apply (run_keeps Hkeep txs l1) in Hmarked.
    by apply (invoke_used_nonce env2 op2 (run txs l1) n Hn2 Hmarked).
  - intros env op l e. unfold transact.
    by destruct (invoke env op l).
Qed.

(** C10: the three operations share one set of used nonces.  No invocation
    ever clears a used nonce; a successful invocation finds its nonce unused
    and leaves it used; and from then on, after any history, every
    operation of the three that presents that nonce reverts. *)
Theorem usedNonces_shared_monotone :
  calls_keep_marks ->
  forall env op (l : Ledger Storage World),
    (forall n, isUsed (store l) n = true ->
               isUsed (store (snd (transact (invoke env op) l))) n = true) /\
    (forall n res l',
       op_nonce op = Some n ->
       transact (invoke env op) l = (Success res, l') ->
       isUsed (store l) n = false /\
       isUsed (store l') n = true /\
       forall txs env' op',
         isUsed (store (run txs l')) n = true /\
         (op_nonce op' = Some n ->
          exists e, transact (invoke env' op') (run txs l') = (Reverted e, run txs l'))).
Proof.
  intros Hkeep env op l. split.
  - apply (invoke_keeps Hkeep env op l).
  - intros n res l' Hn Hok.
    destruct (invoke_success_marks Hkeep env op l l' n res Hn Hok) as [Hbefore Hafter].
    split; [done|]. split; [done|].
    intros txs env' op'.
    pose proof (proj2 (run_keeps Hkeep txs l') n Hafter) as Hlater.
    split; [done|]. intros Hn'.
    by apply (invoke_used_nonce env' op' (run txs l') n Hn' Hlater).
Qed.

End Nonces.

(** On the demo host: [setAdmin] uses nonce 7; after an [updateCallers] with
    nonce 8, an [executeBatch] presenting nonce 7 is refused. *)
Lemma nonce_single_use_witness :
  let first := WithCallers.SetAdmin (mkSignedAdminChange 11 7 2000 [x0a]) in
  let between := [(Demo.now, WithCallers.UpdateCallers
                     (mkSignedCallerUpdate [30] [true] 8 2000 [x0b]))] in
  let second := WithCallers.ExecuteBatch (mkSignedBatch [mkCall 1 0 []] 7 2000 [x14]) in
  let l1 := snd (transact (@WithCallers.invoke (Demo.host _) Demo.now first) Demo.ready) in
  fst (transact (@WithCallers.invoke (Demo.host _) Demo.now second)
         (@WithCallers.run (Demo.host _) between l1))
  = Reverted NonceAlreadyUsed.
Proof.
  intros first between second l1.
  refine (f_equal fst (proj1 (@nonce_single_use (Demo.host _) demo_keeps_marks)
    Demo.now first Demo.ready [] l1 7 _ _ between Demo.now second _ _)).
  - reflexivity.
  - reflexivity.
  - reflexivity.
  - reflexivity.
Defined.

Lemma usedNonces_shared_monotone_witness :
  let first := WithCallers.UpdateCallers (mkSignedCallerUpdate [30] [true] 8 2000 [x0a]) in
  let later := WithCallers.SetAdmin (mkSignedAdminChange 11 8 2000 [x0a]) in
  let l1 := snd (transact (@WithCallers.invoke (Demo.host _) Demo.now first) Demo.ready) in
  WithCallers.isUsed (store Demo.ready) 8 = false /\
  WithCallers.isUsed (store l1) 8 = true /\
  exists e, transact (@WithCallers.invoke (Demo.host _) Demo.now later) l1 = (Reverted e, l1).
Proof.
  intros first later l1.
  destruct (proj2 (@usedNonces_shared_monotone (Demo.host _) demo_keeps_marks
    Demo.now first Demo.ready) 8 [] l1 eq_refl eq_refl) as (Hb & Ha & Hl).
  split; [exact Hb|]. split; [exact Ha|].
  exact (proj2 (Hl [] Demo.now later) eq_refl).
Defined.

(** ** The allow list (C3) *)

(** C3 as stated fails on the demo host for a batch whose call fails: the
    signer 20 is refused with [NotAllowedCaller], the admin adds 20 with
    [updateCallers], and the same batch under the fresh nonce 3 still does
    not succeed, because its forwarded call fails. *)
Lemma allow_list_counterexample :
  let l : Ledger WithCallers.Storage (list (address * uint256)) :=
    mkLedger (WithCallers.mkStorage 10 ∅ ∅ true) [] [] in
  let batch nonce := mkSignedBatch [mkCall 2 0 []] nonce 2000 [x14] in
  let add := mkSignedCallerUpdate [20] [true] 2 2000 [x0a] in
  let first := transact (@WithCallers.executeBatch (Demo.host _) Demo.now (batch 1)) l in
  let update := transact (@WithCallers.updateCallers (Demo.host _) Demo.now add) (snd first) in
  let second := transact (@WithCallers.executeBatch (Demo.host _) Demo.now (batch 3)) (snd update) in
  fst first = Reverted NotAllowedCaller /\
  fst update = Success tt /\
  WithCallers.isAllowed (store (snd update)) 20 = true /\
  fst second = Reverted (ErrorString "BatchDelegator: call failed").
Proof. vm_compute. done. Qed.

Section AllowList.
Import WithCallers WithCallersFacts MarkFacts.
Context `{Host Storage}.

Lemma isAllowed_set (c s : address) (flag : bool) (st : Storage) :
  isAllowed (set_allowedCaller c flag st) s
  = if decide (c = s) then flag else isAllowed st s.
Proof.
  unfold isAllowed, set_allowedCaller. cbn [allowedCallers].
  rewrite lookup_insert. by destruct (decide (c = s)).
Qed.

Lemma update_all_allowed (callers : list address) (flags : list bool)
    (l : Ledger Storage World) (s : address) :
  length callers = length flags ->
  (forall i, callers !! i = Some s -> flags !! i = Some true) ->
  s ∈ callers \/ isAllowed (store l) s = true ->
  isAllowed (store (update_all callers flags l)) s = true.
Proof.
  revert flags l. induction callers as [|c callers IH]; intros flags l Hlen Hflags Hs.
  - destruct Hs as [Hs|Hs]; [by apply elem_of_nil in Hs | done].
  - destruct flags as [|f flags]; [done|]. cbn [update_all].
    apply IH.
    + by injection Hlen.
    + intros i Hi. exact (Hflags (Datatypes.S i) Hi).
    + cbn [store]. rewrite isAllowed_set.
      destruct (decide (c = s)) as [->|Hne].
      * right. specialize (Hflags 0%nat eq_refl). by injection Hflags.
      * destruct Hs as [Hs|Hs]; [|by right].
        apply elem_of_cons in Hs as [->|Hs]; [done | by left].
Qed.

(** C3, amended: a batch that passes the deadline and nonce checks and
    whose recovered signer is not an allowed caller reverts with
    [NotAllowedCaller]; after an [updateCallers] signed by the admin that
    adds the signer, the same calls under a fresh nonce, signed again by
    that signer, succeed provided every forwarded call passes (reports
    success and returns nothing or [true]). *)
Theorem allow_list_gating (env : Env) (sb : SignedBatch) (l : Ledger Storage World)
    (signer : address) :
  block_timestamp env <= sb_deadline sb ->
  isUsed (store l) (sb_nonce sb) = false ->
  ECDSA_recover
    (toEthSignedMessageHash (getBatchHash (sb_calls sb) (sb_nonce sb) (sb_deadline sb)))
    (sb_signature sb) = Some signer ->
  isAllowed (store l) signer = false ->
  transact (executeBatch env sb) l = (Reverted NotAllowedCaller, l) /\
  forall env_u su,
    length (su_callers su) = length (su_isAdding su) ->
    block_timestamp env_u <= su_deadline su ->
    isUsed (store l) (su_nonce su) = false ->
    ECDSA_recover
      (toEthSignedMessageHash
         (getCallerUpdateHash (su_callers su) (su_isAdding su) (su_nonce su)
            (su_deadline su)))
      (su_signature su) = Some (admin (store l)) ->
    signer ∈ su_callers su ->
    (forall i, su_callers su !! i = Some signer -> su_isAdding su !! i = Some true) ->
    let l1 := update_all (su_callers su) (su_isAdding su) (mark_nonce (su_nonce su) l) in
    transact (updateCallers env_u su) l = (Success tt, l1) /\
    forall env2 nonce2 signature2 rets l2,
      block_timestamp env2 <= sb_deadline sb ->
      isUsed (store l1) nonce2 = false ->
      ECDSA_recover
        (toEthSignedMessageHash (getBatchHash (sb_calls sb) nonce2 (sb_deadline sb)))
        signature2 = Some signer ->
      run_calls env2 (sb_calls sb) (mark_nonce nonce2 l1) = inr (rets, l2) ->
      transact
        (executeBatch env2 (mkSignedBatch (sb_calls sb) nonce2 (sb_deadline sb) signature2))
        l1
      = (Success rets,
         mkLedger (store l2)
           (events l2 ++ [BatchExecuted signer (msg_sender env2) (sb_calls sb) rets])
           (world l2)).
Proof.
  intros Hdeadline Hnonce Hsig Hnot. split.
  - unfold transact.
    by rewrite executeBatch_cases, gtb_false, Hnonce, Hsig, Hnot.
  - intros env_u su Hlen Hdl_u Hnonce_u Hsig_u Hin Hflags l1. split.
    + unfold transact.
      rewrite updateCallers_cases, Hlen, Nat.eqb_refl, gtb_false, Hnonce_u, Hsig_u,
        Z.eqb_refl by done.
      reflexivity.
    + intros env2 nonce2 signature2 rets l2 Hdl2 Hnonce2 Hsig2 Hrun.
      assert (isAllowed (store l1) signer = true) as Hallowed.
      { apply update_all_allowed; [done | done | by left]. }
      unfold transact. rewrite executeBatch_cases.
      cbn [sb_calls sb_nonce sb_deadline sb_signature].
      by rewrite gtb_false, Hnonce2, Hsig2, Hallowed, Hrun.
Qed.

End AllowList.

(** On the demo host, with a batch whose only call delivers. *)
Lemma allow_list_gating_witness :
  let l : Ledger WithCallers.Storage (list (address * uint256)) :=
    mkLedger (WithCallers.mkStorage 10 ∅ ∅ true) [] [] in
  let batch nonce := mkSignedBatch [mkCall 1 0 []] nonce 2000 [x14] in
  let add := mkSignedCallerUpdate [20] [true] 2 2000 [x0a] in
  let l1 := snd (transact (@WithCallers.updateCallers (Demo.host _) Demo.now add) l) in
  transact (@WithCallers.executeBatch (Demo.host _) Demo.now (batch 1)) l
  = (Reverted NotAllowedCaller, l) /\
  fst (transact (@WithCallers.executeBatch (Demo.host _) Demo.now (batch 3)) l1)
  = Success [Demo.word 1].
Proof.
  intros l batch add l1.
  destruct (@allow_list_gating (Demo.host _) Demo.now (batch 1) l 20
              ltac:(vm_compute; discriminate) eq_refl eq_refl eq_refl) as [Hfirst Hafter].
  split; [exact Hfirst|].
  destruct (Hafter Demo.now add eq_refl ltac:(vm_compute; discriminate) eq_refl eq_refl
              ltac:(apply list_elem_of_here)
              ltac:(intros [|i] Hi; [reflexivity | discriminate Hi])) as [_ Hsecond].
  exact (f_equal fst (Hsecond Demo.now 3 [x14] [Demo.word 1]
    (mkLedger (WithCallers.mkStorage 10 {[ 20 := true ]} {[ 3 := true; 2 := true ]} true)
       [CallerUpdated 20 true] [(1, 0)])
    ltac:(vm_compute; discriminate) eq_refl eq_refl eq_refl)).
Defined.

(** ** The deadline (C5) *)

(** C5 as stated fails for [updateCallers]: with arrays of different
    lengths and a deadline of one second ago it fails with
    [ArrayLengthMismatch], not with [DeadlineExpired]. *)
Lemma deadline_counterexample :
  let su := mkSignedCallerUpdate [30] [] 1 (block_timestamp Demo.now - 1) [x0a] in
  fst (transact (@WithCallers.updateCallers (Demo.host _) Demo.now su) Demo.ready)
  = Reverted ArrayLengthMismatch.
Proof. vm_compute. done. Qed.

Section Deadline.
Import WithCallers WithCallersFacts.
Context `{Host Storage}.

(** C5, amended: in [executeBatch] and [setAdmin], and in [updateCallers]
    when its two arrays have the same length, a deadline equal to the
    current time does not fail with [DeadlineExpired], and a deadline of the
    current time minus one fails with [DeadlineExpired].  An [updateCallers]
    whose arrays differ in length fails with [ArrayLengthMismatch] whatever
    its deadline, the lengths being checked first. *)
Theorem deadline_boundary (env : Env) (l : Ledger Storage World) :
  (forall sb, sb_deadline sb = block_timestamp env ->
     fst (transact (executeBatch env sb) l) <> Reverted DeadlineExpired) /\
  (forall sb, sb_deadline sb = block_timestamp env - 1 ->
     transact (executeBatch env sb) l = (Reverted DeadlineExpired, l)) /\
  (forall sc, sc_deadline sc = block_timestamp env ->
     fst (transact (setAdmin env sc) l) <> Reverted DeadlineExpired) /\
  (forall sc, sc_deadline sc = block_timestamp env - 1 ->
     transact (setAdmin env sc) l = (Reverted DeadlineExpired, l)) /\
  (forall su, length (su_callers su) = length (su_isAdding su) ->
     su_deadline su = block_timestamp env ->
     fst (transact (updateCallers env su) l) <> Reverted DeadlineExpired) /\
  (forall su, length (su_callers su) = length (su_isAdding su) ->
     su_deadline su = block_timestamp env - 1 ->
     transact (updateCallers env su) l = (Reverted DeadlineExpired, l)) /\
  (forall su, length (su_callers su) <> length (su_isAdding su) ->
     transact (updateCallers env su) l = (Reverted ArrayLengthMismatch, l)).
Proof.
  repeat split.
  - intros sb Hd. unfold transact. rewrite executeBatch_cases, gtb_false by lia.
    destruct (isUsed (store l) (sb_nonce sb)); [done|].
    destruct (ECDSA_recover _ _) as [signer|]; [|done].
    destruct (isAllowed (store l) signer); [|done].
    destruct (run_calls env (sb_calls sb) (mark_nonce (sb_nonce sb) l))
      as [[r l']|[rets l']]; [|done].
    cbn [fst]. by destruct (stop_error_cases r) as [-> | [-> | ->]].
  - intros sb Hd. unfold transact. by rewrite executeBatch_cases, gtb_true by lia.
  - intros sc Hd. unfold transact. rewrite setAdmin_cases, gtb_false by lia.
    destruct (isUsed (store l) (sc_nonce sc)); [done|].
    destruct (ECDSA_recover _ _) as [signer|]; [|done].
    by destruct (signer =? admin (store l)).
  - intros sc Hd. unfold transact. by rewrite setAdmin_cases, gtb_true by lia.
  - intros su Hlen Hd. unfold transact.
    rewrite updateCallers_cases, Hlen, Nat.eqb_refl, gtb_false by lia. cbn [negb].
    destruct (isUsed (store l) (su_nonce su)); [done|].
    destruct (ECDSA_recover _ _) as [signer|]; [|done].
    by destruct (signer =? admin (store l)).
  - intros su Hlen Hd. unfold transact.
    by rewrite updateCallers_cases, Hlen, Nat.eqb_refl, gtb_true by lia.
  - intros su Hlen. unfold transact. rewrite updateCallers_cases.
    by replace (length (su_callers su) =? length (su_isAdding su))%nat with false
      by (symmetry; by apply Nat.eqb_neq).
Qed.

End Deadline.

Lemma deadline_boundary_witness :
  let on_time := mkSignedCallerUpdate [30] [true] 1 1000 [x0a] in
  let late := mkSignedCallerUpdate [30] [true] 1 999 [x0a] in
  let uneven := mkSignedCallerUpdate [30] [] 1 999 [x0a] in
  fst (transact (@WithCallers.updateCallers (Demo.host _) Demo.now on_time) Demo.ready)
  <> Reverted DeadlineExpired /\
  transact (@WithCallers.updateCallers (Demo.host _) Demo.now late) Demo.ready
  = (Reverted DeadlineExpired, Demo.ready) /\
  transact (@WithCallers.updateCallers (Demo.host _) Demo.now uneven) Demo.ready
  = (Reverted ArrayLengthMismatch, Demo.ready).
Proof.
  intros on_time late uneven.
  destruct (@deadline_boundary (Demo.host _) Demo.now Demo.ready)
    as (_ & _ & _ & _ & Hon & Hlate & Huneven).
  split; [exact (Hon on_time eq_refl eq_refl)|].
  split; [exact (Hlate late eq_refl eq_refl)|].
  exact (Huneven uneven ltac:(discriminate)).
Defined.

(** ** Admin rotation (C6) *)

Section Admin.
Import WithCallers WithCallersFacts MarkFacts.
Context `{Host Storage}.

(** C6: a [setAdmin] that passes the deadline and nonce checks fails with
    [InvalidSignature] when its signature recovers to any address other than
    the current admin; when it recovers to the current admin it succeeds and
    [admin] becomes [newAdmin].  From then on, in every ledger whose admin is
    still that new admin, a [setAdmin] or [updateCallers] that passes its
    earlier checks succeeds exactly when its signature recovers to the new
    admin, and fails with [InvalidSignature] otherwise. *)
Theorem admin_rotation (env : Env) (sc : SignedAdminChange) (l : Ledger Storage World)
    (signer : address) :
  block_timestamp env <= sc_deadline sc ->
  isUsed (store l) (sc_nonce sc) = false ->
  ECDSA_recover
    (toEthSignedMessageHash
       (getAdminChangeHash (sc_newAdmin sc) (sc_nonce sc) (sc_deadline sc)))
    (sc_signature sc) = Some signer ->
  (signer <> admin (store l) ->
   transact (setAdmin env sc) l = (Reverted InvalidSignature, l)) /\
  (signer = admin (store l) ->
   let l1 := change_admin (sc_newAdmin sc) (mark_nonce (sc_nonce sc) l) in
   transact (setAdmin env sc) l = (Success tt, l1) /\
   admin (store l1) = sc_newAdmin sc /\
   forall l2 : Ledger Storage World,
     admin (store l2) = sc_newAdmin sc ->
     (forall env2 sc2 signer2,
        block_timestamp env2 <= sc_deadline sc2 ->
        isUsed (store l2) (sc_nonce sc2) = false ->
        ECDSA_recover
          (toEthSignedMessageHash
             (getAdminChangeHash (sc_newAdmin sc2) (sc_nonce sc2) (sc_deadline sc2)))
          (sc_signature sc2) = Some signer2 ->
        fst (transact (setAdmin env2 sc2) l2)
        = if decide (signer2 = sc_newAdmin sc) then Success tt
          else Reverted InvalidSignature) /\
     (forall env2 su2 signer2,
        length (su_callers su2) = length (su_isAdding su2) ->
        block_timestamp env2 <= su_deadline su2 ->
        isUsed (store l2) (su_nonce su2) = false ->
        ECDSA_recover
          (toEthSignedMessageHash
             (getCallerUpdateHash (su_callers su2) (su_isAdding su2) (su_nonce su2)
                (su_deadline su2)))
          (su_signature su2) = Some signer2 ->
        fst (transact (updateCallers env2 su2) l2)
        = if decide (signer2 = sc_newAdmin sc) then Success tt
          else Reverted InvalidSignature)).
Proof.
  intros Hdeadline Hnonce Hsig. split.
  - intros Hne. unfold transact.
    rewrite setAdmin_cases, gtb_false, Hnonce, Hsig by done.
    by replace (signer =? admin (store l)) with false by (symmetry; by apply Z.eqb_neq).
  - intros -> l1. split; [|split; [done|]].
    + unfold transact.
      by rewrite setAdmin_cases, gtb_false, Hnonce, Hsig, Z.eqb_refl.
    + intros l2 Hadmin. split.
      * intros env2 sc2 signer2 Hd2 Hn2 Hs2. unfold transact.
        rewrite setAdmin_cases, gtb_false, Hn2, Hs2, Hadmin by done.
        destruct (decide (signer2 = sc_newAdmin sc)) as [->|Hne].
        -- by rewrite Z.eqb_refl.
        -- by replace (signer2 =? sc_newAdmin sc) with false
             by (symmetry; by apply Z.eqb_neq).
      * intros env2 su2 signer2 Hlen2 Hd2 Hn2 Hs2. unfold transact.
        rewrite updateCallers_cases, Hlen2, Nat.eqb_refl, gtb_false, Hn2, Hs2, Hadmin
          by done.
        cbn [negb].
        destruct (decide (signer2 = sc_newAdmin sc)) as [->|Hne].
        -- by rewrite Z.eqb_refl.
        -- by replace (signer2 =? sc_newAdmin sc) with false
             by (symmetry; by apply Z.eqb_neq).
Qed.

End Admin.

(** On the demo host: the admin 10 hands over to 11; afterwards a change
    signed by 10 is refused and an update signed by 11 goes through. *)
Lemma admin_rotation_witness :
  let sc := mkSignedAdminChange 11 7 2000 [x0a] in
  let l1 := snd (transact (@WithCallers.setAdmin (Demo.host _) Demo.now sc) Demo.ready) in
  fst (transact (@WithCallers.setAdmin (Demo.host _) Demo.now sc) Demo.ready) = Success tt /\
  WithCallers.admin (store l1) = 11 /\
  fst (transact (@WithCallers.setAdmin (Demo.host _) Demo.now
                   (mkSignedAdminChange 10 8 2000 [x0a])) l1)
  = Reverted InvalidSignature /\
  fst (transact (@WithCallers.updateCallers (Demo.host _) Demo.now
                   (mkSignedCallerUpdate [30] [true] 9 2000 [x0b])) l1)
  = Success tt.
Proof.
  intros sc l1.
  destruct (proj2 (@admin_rotation (Demo.host _) Demo.now sc Demo.ready 10
                     ltac:(vm_compute; discriminate) eq_refl eq_refl) eq_refl)
    as (Hok & Hadmin & Hlater).
  split; [exact (f_equal fst Hok)|]. split; [exact Hadmin|].
  destruct (Hlater l1 eq_refl) as [Hset Hupd].
  split.
  - exact (Hset Demo.now (mkSignedAdminChange 10 8 2000 [x0a]) 10
             ltac:(vm_compute; discriminate) eq_refl eq_refl).
  - exact (Hupd Demo.now (mkSignedCallerUpdate [30] [true] 9 2000 [x0b]) 11
             eq_refl ltac:(vm_compute; discriminate) eq_refl eq_refl).
Defined.

(** ** Initialization (C7) *)

Section Initialize.
Import WithCallers WithCallersFacts MarkFacts.
Context `{Host Storage}.

(** C7: on a ledger that is not initialized, [initialize(a)] succeeds
    whoever calls it, sets [admin] to [a] and sets [initialized]; after any
    history of invocations that follows, [initialize] with any argument
    reverts with [AlreadyInitialized] and leaves the ledger, [admin]
    included, as it was. *)
Theorem initialize_once :
  calls_keep_marks ->
  forall (a : address) (l : Ledger Storage World),
    initialized (store l) = false ->
    let l1 := mkLedger (set_admin a (set_initialized true (store l)))
                (events l ++ [AdminChanged 0 a]) (world l) in
    transact (initialize a) l = (Success tt, l1) /\
    admin (store l1) = a /\
    initialized (store l1) = true /\
    forall (txs : list (Env * Op)) (b : address),
      transact (initialize b) (run txs l1) = (Reverted AlreadyInitialized, run txs l1) /\
      admin (store (snd (transact (initialize b) (run txs l1))))
      = admin (store (run txs l1)).
Proof.
  intros Hkeep a l Hfresh l1.
  assert (transact (initialize a) l = (Success tt, l1)) as Hfirst.
  { unfold transact. by rewrite initialize_cases, Hfresh. }
  split; [done|]. split; [done|]. split; [done|].
  intros txs b.
  assert (initialized (store (run txs l1)) = true) as Hstill.
  { by apply (run_keeps Hkeep txs l1). }
  assert (transact (initialize b) (run txs l1)
          = (Reverted AlreadyInitialized, run txs l1)) as Hagain.
  { unfold transact. by rewrite initialize_cases, Hstill. }
  split; [done|]. by rewrite Hagain.
Qed.

End Initialize.

(** On the demo host, from a fresh deployment: 10 becomes admin, hands over
    to 11, and a second [initialize] is refused. *)
Lemma initialize_once_witness :
  let l1 := snd (transact (@WithCallers.initialize (Demo.host _) 10) Demo.genesis) in
  let txs := [(Demo.now, WithCallers.SetAdmin (mkSignedAdminChange 11 7 2000 [x0a]))] in
  fst (transact (@WithCallers.initialize (Demo.host _) 10) Demo.genesis) = Success tt /\
  WithCallers.admin (store l1) = 10 /\
  WithCallers.admin (store (@WithCallers.run (Demo.host _) txs l1)) = 11 /\
  fst (transact (@WithCallers.initialize (Demo.host _) 12)
         (@WithCallers.run (Demo.host _) txs l1))
  = Reverted AlreadyInitialized.
Proof.
  intros l1 txs.
  destruct (@initialize_once (Demo.host _) demo_keeps_marks 10 Demo.genesis eq_refl)
    as (Hfirst & Hadmin & _ & Hlater).
  split; [exact (f_equal fst Hfirst)|]. split; [exact Hadmin|].
  split; [reflexivity|].
  exact (f_equal fst (proj1 (Hlater txs 12))).
Defined.

(** ** The other two contracts, case by case *)

Section OtherVariants.

Lemma unguarded_executeBatch_cases `{Host unit} (env : Env) (calls : list Call)
    (l : Ledger unit World) :
  Unguarded.executeBatch env calls l =
  match run_calls env calls l with
  | inl (r, l') => Revert (stop_error r) l'
  | inr (rets, l') =>
      Return rets
        (mkLedger (store l') (events l' ++ [BatchExecutedBy (msg_sender env) calls rets])
           (world l'))
  end.
Proof.
  unfold Unguarded.executeBatch, bind. rewrite forward_run_calls.
  destruct (run_calls env calls l) as [[r l']|[rets l']] eqn:Erun; [reflexivity|].
  apply run_calls_length in Erun. rewrite <- Erun, fill_fresh. reflexivity.
Qed.

Lemma withSig_executeBatch_cases `{Host WithSig.Storage} (env : Env) (sb : SignedBatch)
    (l : Ledger WithSig.Storage World) :
  WithSig.executeBatch env sb l =
  let marked :=
    mkLedger (WithSig.set_usedNonce (sb_nonce sb) true (store l)) (events l) (world l) in
  if block_timestamp env >? sb_deadline sb then Revert DeadlineExpired l
  else if WithSig.isUsed (store l) (sb_nonce sb) then Revert NonceAlreadyUsed l
  else
    match ECDSA_recover
            (toEthSignedMessageHash
               (getBatchHash (sb_calls sb) (sb_nonce sb) (sb_deadline sb)))
            (sb_signature sb) with
    | None => Revert ECDSAFailure marked
    | Some signer =>
        if signer =? this env then
          match run_calls env (sb_calls sb) marked with
          | inl (r, l') => Revert (stop_error r) l'
          | inr (rets, l') =>
              Return rets
                (mkLedger (store l')
                   (events l' ++
                      [BatchExecuted (this env) (msg_sender env) (sb_calls sb) rets])
                   (world l'))
          end
        else Revert InvalidSignature marked
    end.
Proof.
  unfold WithSig.executeBatch. cbn zeta.
  destruct (block_timestamp env >? sb_deadline sb); [reflexivity|].
  unfold bind at 1. unfold read at 1.
  destruct (WithSig.isUsed (store l) (sb_nonce sb)); [reflexivity|].
  unfold bind at 1. unfold write at 1. unfold bind at 1. unfold recover.
  destruct (ECDSA_recover _ _) as [signer|]; [|reflexivity].
  unfold ret at 1.
  destruct (signer =? this env); cbn [negb]; [|reflexivity].
  unfold bind at 1. rewrite forward_run_calls.
  destruct (run_calls env (sb_calls sb) _) as [[r l']|[rets l']] eqn:Erun; [reflexivity|].
  apply run_calls_length in Erun. rewrite <- Erun, fill_fresh. reflexivity.
Qed.

End OtherVariants.

(** ** Return data (C9) *)

(** C9 as stated fails on the demo host, in the unguarded and in the
    allow-list contract alike: a call that returns the [uint256] 1 and a call
    that returns the pair of [uint256] (1, 5) both let the batch go through. *)
Lemma return_data_counterexample :
  let calls := [mkCall 5 0 []; mkCall 6 0 []] in
  let rets := [Demo.word 1; Demo.word 1 ++ Demo.word 5] in
  fst (transact (@Unguarded.executeBatch (Demo.host _) Demo.now calls)
         (mkLedger tt [] []))
  = Success rets /\
  fst (transact (@WithCallers.executeBatch (Demo.host _) Demo.now
                   (mkSignedBatch calls 5 2000 [x14])) Demo.ready)
  = Success rets /\
  fst (transact (@WithSig.executeBatch (Demo.host _) Demo.now
                   (mkSignedBatch calls 5 2000 [x32]))
         (mkLedger (WithSig.mkStorage 10 ∅ true) [] []))
  = Success rets.
Proof. vm_compute. done. Qed.

Section ReturnData.
Context {S : Type} `{Host S}.

(** C9, amended: in the loop that every variant of [executeBatch] runs, a
    call that reports success with non-empty return data has that data
    decoded as one boolean.  The batch aborts when the data is shorter than
    32 bytes or its first 32-byte word is neither 0 nor 1 (the decoding
    reverts), and when that word is 0 (["call returned false"]).  When the
    first word is 1 the loop stores the data and goes on to the next call,
    whatever the callee meant the data to be and whatever follows the first
    word. *)
Theorem return_data_decoding (env : Env) (c : Call) (calls : list Call) (i : nat)
    (results : list bytes) (l l' : Ledger S World) (ret_data : bytes) :
  call env c l = ((true, ret_data), l') ->
  (0 < length ret_data)%nat ->
  forward env (c :: calls) i results l =
  if (length ret_data <? 32)%nat then Revert DecodeFailure l'
  else if (be_value (take 32 ret_data) =? 0)%N
  then Revert (ErrorString "BatchDelegator: call returned false") l'
  else if (be_value (take 32 ret_data) =? 1)%N
  then forward env calls (Datatypes.S i) (<[i := ret_data]> results) l'
  else Revert DecodeFailure l'.
Proof.
  intros Hcall Hlen.
  cbn [forward]. unfold bind at 1, low_level_call. rewrite Hcall.
  unfold require, bind, ret, revert, abi_decode_bool.
  replace (0 <? length ret_data)%nat with true by (symmetry; by apply Nat.ltb_lt).
  destruct (length ret_data <? 32)%nat; [reflexivity|].
  destruct (be_value (take 32 ret_data) =? 0)%N; [reflexivity|].
  by destruct (be_value (take 32 ret_data) =? 1)%N.
Qed.

End ReturnData.

(** On the demo host: the pair (1, 5) from target 6 is let through, and the
    loop goes on with the rest of the batch. *)
Lemma return_data_decoding_witness :
  let l : Ledger unit (list (address * uint256)) := mkLedger tt [] [] in
  let l' : Ledger unit (list (address * uint256)) := mkLedger tt [] [(6, 0)] in
  @forward unit (Demo.host _) Demo.now [mkCall 6 0 []; mkCall 7 0 []] 0 [[]; []] l
  = @forward unit (Demo.host _) Demo.now [mkCall 7 0 []] 1
      [Demo.word 1 ++ Demo.word 5; []] l'.
Proof.
  intros l l'.
  exact (@return_data_decoding unit (Demo.host _) Demo.now (mkCall 6 0 []) [mkCall 7 0 []]
           0%nat [[]; []] l l' (Demo.word 1 ++ Demo.word 5) eq_refl
           ltac:(vm_compute; lia)).
Defined.

(** * Further properties of the contracts *)

(** ** What [updateCallers] and [setAdmin] change and what they leave *)

Section Effects.
Import WithCallers WithCallersFacts MarkFacts.
Context `{Host Storage}.

Lemma update_all_final (callers : list address) (flags : list bool)
    (l : Ledger Storage World) (s : address) :
  isAllowed (store (update_all callers flags l)) s =
  match final_flag callers flags s with
  | Some b => b
  | None => isAllowed (store l) s
  end.
Proof.
  revert flags l. induction callers as [|c callers IH]; intros flags l; [done|].
  destruct flags as [|f flags]; [done|]. cbn [update_all final_flag].
  rewrite IH. cbn [store].
  destruct (final_flag callers flags s); [done|].
  rewrite isAllowed_set. by destruct (decide (c = s)).
Qed.

Lemma update_all_events (callers : list address) (flags : list bool)
    (l : Ledger Storage World) :
  events (update_all callers flags l) = events l ++ zip_with CallerUpdated callers flags.
Proof.
  revert flags l. induction callers as [|c callers IH]; intros flags l.
  - cbn. by rewrite app_nil_r.
  - destruct flags as [|f flags]; cbn [update_all zip_with].
    + by rewrite app_nil_r.
    + rewrite IH. cbn [events]. by rewrite <- app_assoc.
Qed.

Lemma updateCallers_success (env : Env) (su : SignedCallerUpdate)
    (l : Ledger Storage World) :
  length (su_callers su) = length (su_isAdding su) ->
  block_timestamp env <= su_deadline su ->
  isUsed (store l) (su_nonce su) = false ->
  ECDSA_recover
    (toEthSignedMessageHash
       (getCallerUpdateHash (su_callers su) (su_isAdding su) (su_nonce su)
          (su_deadline su)))
    (su_signature su) = Some (admin (store l)) ->
  transact (updateCallers env su) l
  = (Success tt, update_all (su_callers su) (su_isAdding su) (mark_nonce (su_nonce su) l)).
Proof.
  intros Hlen Hdl Hnonce Hsig. unfold transact.
  by rewrite updateCallers_cases, Hlen, Nat.eqb_refl, gtb_false, Hnonce, Hsig, Z.eqb_refl.
Qed.

Lemma setAdmin_success (env : Env) (sc : SignedAdminChange) (l : Ledger Storage World) :
  block_timestamp env <= sc_deadline sc ->
  isUsed (store l) (sc_nonce sc) = false ->
  ECDSA_recover
    (toEthSignedMessageHash
       (getAdminChangeHash (sc_newAdmin sc) (sc_nonce sc) (sc_deadline sc)))
    (sc_signature sc) = Some (admin (store l)) ->
  transact (setAdmin env sc) l
  = (Success tt, change_admin (sc_newAdmin sc) (mark_nonce (sc_nonce sc) l)).
Proof.
  intros Hdl Hnonce Hsig. unfold transact.
  by rewrite setAdmin_cases, gtb_false, Hnonce, Hsig, Z.eqb_refl.
Qed.

(** X1: after an [updateCallers] that goes through, an address named in
    [callers] is allowed exactly when the flag of its last entry is [true]
    (an address listed twice keeps the later flag), and every address not
    named keeps the status it had. *)
Theorem updateCallers_last_write_wins (env : Env) (su : SignedCallerUpdate)
    (l : Ledger Storage World) :
  length (su_callers su) = length (su_isAdding su) ->
  block_timestamp env <= su_deadline su ->
  isUsed (store l) (su_nonce su) = false ->
  ECDSA_recover
    (toEthSignedMessageHash
       (getCallerUpdateHash (su_callers su) (su_isAdding su) (su_nonce su)
          (su_deadline su)))
    (su_signature su) = Some (admin (store l)) ->
  fst (transact (updateCallers env su) l) = Success tt /\
  forall s,
    isAllowed (store (snd (transact (updateCallers env su) l))) s =
    match final_flag (su_callers su) (su_isAdding su) s with
    | Some b => b
    | None => isAllowed (store l) s
    end.
Proof.
  intros Hlen Hdl Hnonce Hsig.
  rewrite (updateCallers_success env su l Hlen Hdl Hnonce Hsig). cbn [fst snd].
  split; [done|]. intros s. by rewrite update_all_final.
Qed.

(** X2: an [updateCallers] that goes through logs one [CallerUpdated] per
    entry, in the order of the arrays, after the events already there; it
    marks its own nonce and no other, and leaves [admin], [initialized] and
    the rest of the world as they were. *)
Theorem updateCallers_frame (env : Env) (su : SignedCallerUpdate)
    (l : Ledger Storage World) :
  length (su_callers su) = length (su_isAdding su) ->
  block_timestamp env <= su_deadline su ->
  isUsed (store l) (su_nonce su) = false ->
  ECDSA_recover
    (toEthSignedMessageHash
       (getCallerUpdateHash (su_callers su) (su_isAdding su) (su_nonce su)
          (su_deadline su)))
    (su_signature su) = Some (admin (store l)) ->
  let l1 := snd (transact (updateCallers env su) l) in
  events l1 = events l ++ zip_with CallerUpdated (su_callers su) (su_isAdding su) /\
  (forall m, isUsed (store l1) m
             = if decide (su_nonce su = m) then true else isUsed (store l) m) /\
  admin (store l1) = admin (store l) /\
  initialized (store l1) = initialized (store l) /\
  world l1 = world l.
Proof.
  intros Hlen Hdl Hnonce Hsig. cbn zeta.
  rewrite (updateCallers_success env su l Hlen Hdl Hnonce Hsig). cbn [snd].
  destruct (update_all_store (su_callers su) (su_isAdding su)
              (mark_nonce (su_nonce su) l)) as (Ha & Hu & Hi & Hw).
  split; [by rewrite update_all_events|].
  split; [|by rewrite Ha, Hi, Hw].
  intros m. rewrite <- isUsed_mark. unfold isUsed. by rewrite Hu.
Qed.

(** X3: a [setAdmin] that goes through changes [admin], logs one
    [AdminChanged] carrying the old and the new admin, and marks its own
    nonce and no other; the allowed callers, [initialized] and the rest of
    the world are as they were, so rotating the admin revokes no caller. *)
Theorem setAdmin_frame (env : Env) (sc : SignedAdminChange) (l : Ledger Storage World) :
  block_timestamp env <= sc_deadline sc ->
  isUsed (store l) (sc_nonce sc) = false ->
  ECDSA_recover
    (toEthSignedMessageHash
       (getAdminChangeHash (sc_newAdmin sc) (sc_nonce sc) (sc_deadline sc)))
    (sc_signature sc) = Some (admin (store l)) ->
  let l1 := snd (transact (setAdmin env sc) l) in
  events l1 = events l ++ [AdminChanged (admin (store l)) (sc_newAdmin sc)] /\
  (forall m, isUsed (store l1) m
             = if decide (sc_nonce sc = m) then true else isUsed (store l) m) /\
  allowedCallers (store l1) = allowedCallers (store l) /\
  initialized (store l1) = initialized (store l) /\
  world l1 = world l.
Proof.
  intros Hdl Hnonce Hsig. cbn zeta.
  rewrite (setAdmin_success env sc l Hdl Hnonce Hsig). cbn [snd].
  split; [done|]. split; [|done].
  intros m. by rewrite <- isUsed_mark.
Qed.

(** X4: revocation works: once an [updateCallers] that goes through has
    [false] as the last flag for an address, a batch whose signature
    recovers to that address and that passes the deadline and nonce checks
    reverts with [NotAllowedCaller]. *)
Theorem revoked_caller_refused (env : Env) (su : SignedCallerUpdate)
    (l : Ledger Storage World) (signer : address) (env2 : Env) (sb : SignedBatch) :
  length (su_callers su) = length (su_isAdding su) ->
  block_timestamp env <= su_deadline su ->
  isUsed (store l) (su_nonce su) = false ->
  ECDSA_recover
    (toEthSignedMessageHash
       (getCallerUpdateHash (su_callers su) (su_isAdding su) (su_nonce su)
          (su_deadline su)))
    (su_signature su) = Some (admin (store l)) ->
  final_flag (su_callers su) (su_isAdding su) signer = Some false ->
  let l1 := snd (transact (updateCallers env su) l) in
  block_timestamp env2 <= sb_deadline sb ->
  isUsed (store l1) (sb_nonce sb) = false ->
  ECDSA_recover
    (toEthSignedMessageHash (getBatchHash (sb_calls sb) (sb_nonce sb) (sb_deadline sb)))
    (sb_signature sb) = Some signer ->
  transact (executeBatch env2 sb) l1 = (Reverted NotAllowedCaller, l1).
Proof.
  intros Hlen Hdl Hnonce Hsig Hflag l1 Hdl2 Hnonce2 Hsig2.
  assert (isAllowed (store l1) signer = false) as Hnot.
  { unfold l1. rewrite (updateCallers_success env su l Hlen Hdl Hnonce Hsig). cbn [snd].
    by rewrite update_all_final, Hflag. }
  unfold transact.
  by rewrite executeBatch_cases, gtb_false, Hnonce2, Hsig2, Hnot.
Qed.

End Effects.

(** On the demo host: 20 is added and dropped in one update, 30 is added. *)
Lemma updateCallers_last_write_wins_witness :
  let su := mkSignedCallerUpdate [20; 30; 20] [true; true; false] 8 2000 [x0a] in
  let l1 := snd (transact (@WithCallers.updateCallers (Demo.host _) Demo.now su) Demo.ready) in
  WithCallers.isAllowed (store l1) 20 = false /\
  WithCallers.isAllowed (store l1) 30 = true /\
  WithCallers.isAllowed (store l1) 40 = false.
Proof.
  intros su l1.
  destruct (@updateCallers_last_write_wins (Demo.host _) Demo.now su Demo.ready
              eq_refl ltac:(vm_compute; discriminate) eq_refl eq_refl) as [_ Hall].
  split; [exact (Hall 20)|]. split; [exact (Hall 30) | exact (Hall 40)].
Defined.

Lemma updateCallers_frame_witness :
  let su := mkSignedCallerUpdate [20; 30; 20] [true; true; false] 8 2000 [x0a] in
  let l1 := snd (transact (@WithCallers.updateCallers (Demo.host _) Demo.now su) Demo.ready) in
  events l1 = [CallerUpdated 20 true; CallerUpdated 30 true; CallerUpdated 20 false] /\
  WithCallers.admin (store l1) = 10.
Proof.
  intros su l1.
  destruct (@updateCallers_frame (Demo.host _) Demo.now su Demo.ready
              eq_refl ltac:(vm_compute; discriminate) eq_refl eq_refl)
    as (Hev & _ & Hadmin & _).
  split; [exact Hev | exact Hadmin].
Defined.

Lemma setAdmin_frame_witness :
  let sc := mkSignedAdminChange 11 7 2000 [x0a] in
  let l1 := snd (transact (@WithCallers.setAdmin (Demo.host _) Demo.now sc) Demo.ready) in
  events l1 = [AdminChanged 10 11] /\
  WithCallers.isAllowed (store l1) 20 = true /\
  WithCallers.isUsed (store l1) 7 = true /\
  WithCallers.isUsed (store l1) 6 = false.
Proof.
  intros sc l1.
  destruct (@setAdmin_frame (Demo.host _) Demo.now sc Demo.ready
              ltac:(vm_compute; discriminate) eq_refl eq_refl)
    as (Hev & Hused & Hallowed & _).
  split; [exact Hev|].
  split; [exact (f_equal (fun m => default false (m !! 20)) Hallowed)|].
  split; [exact (Hused 7) | exact (Hused 6)].
Defined.

Lemma revoked_caller_refused_witness :
  let su := mkSignedCallerUpdate [20] [false] 8 2000 [x0a] in
  let l1 := snd (transact (@WithCallers.updateCallers (Demo.host _) Demo.now su) Demo.ready) in
  let sb := mkSignedBatch [mkCall 1 0 []] 9 2000 [x14] in
  fst (transact (@WithCallers.executeBatch (Demo.host _) Demo.now sb) Demo.ready)
  = Success [Demo.word 1] /\
  transact (@WithCallers.executeBatch (Demo.host _) Demo.now sb) l1
  = (Reverted NotAllowedCaller, l1).
Proof.
  intros su l1 sb. split; [reflexivity|].
  exact (@revoked_caller_refused (Demo.host _) Demo.now su Demo.ready 20 Demo.now sb
           eq_refl ltac:(vm_compute; discriminate) eq_refl eq_refl eq_refl
           ltac:(vm_compute; discriminate) eq_refl eq_refl).
Defined.

(** ** What a successful batch guarantees *)

Section BatchFacts.
Context {S : Type} `{Host S}.

Lemma call_passed_data (r : bool * bytes) :
  call_passed r = true -> fst r = true /\ passing_data (snd r).
Proof.
  unfold call_passed, passing_data. destruct r as [ok ret_data]; cbn [fst snd].
  destruct ok; cbn [andb]; [|done]. intros Hdata. split; [done|].
  destruct (0 <? length ret_data)%nat eqn:Elen.
  - right. by destruct (abi_decode_bool ret_data) as [[|]|].
  - left. apply Nat.ltb_ge in Elen. destruct ret_data; [done|]. cbn [length] in Elen. lia.
Qed.

Lemma run_calls_passing (env : Env) (calls : list Call) (l l' : Ledger S World)
    (rets : list bytes) :
  run_calls env calls l = inr (rets, l') -> Forall passing_data rets.
Proof.
  revert l rets. induction calls as [|c calls IH]; intros l rets; cbn [run_calls].
  - intros [= <- <-]. constructor.
  - destruct (call env c l) as [r l1]. destruct (call_passed r) eqn:Epass; [|done].
    destruct (run_calls env calls l1) as [[r' l2]|[rets' l2]] eqn:E; [done|].
    intros [= <- <-]. constructor; [by apply call_passed_data | by apply (IH l1)].
Qed.

Lemma forward_split (env : Env) (first rest : list Call) (i : nat)
    (results : list bytes) (l : Ledger S World) :
  forward env (first ++ rest) i results l =
  match forward env first i results l with
  | Return res l1 => forward env rest (i + length first) res l1
  | Revert e l1 => Revert e l1
  end.
Proof.
  revert i results l. induction first as [|c first IH]; intros i results l.
  - cbn [app forward length]. unfold ret. by rewrite Nat.add_0_r.
  - cbn [app forward length]. unfold bind, low_level_call.
    destruct (call env c l) as [[ok ret_data] l1].
    unfold require, ret, revert.
    destruct ok; [|done].
    destruct (0 <? length ret_data)%nat;
      [destruct (abi_decode_bool ret_data) as [[|]|]; [|done|done]|];
      by rewrite IH, Nat.add_succ_comm.
Qed.

(** X5: the loop of [executeBatch] over a batch that is two batches put end
    to end does what the loop does on the first, and then, if that did not
    revert, what it does on the second from the ledger and the results the
    first left, writing from index [length first] on. *)
Theorem forward_app (env : Env) (first rest : list Call) (i : nat)
    (results : list bytes) (l : Ledger S World) :
  forward env (first ++ rest) i results l =
  match forward env first i results l with
  | Return res l1 => forward env rest (i + length first) res l1
  | Revert e l1 => Revert e l1
  end.
Proof. apply forward_split. Qed.

(** X6: the loop makes no call after the first one that does not pass:
    when the calls before [c] go through and [c] does not pass, the loop
    reverts in the ledger [c] left, whatever calls come after [c]. *)
Theorem forward_stops_at_first_failure (env : Env) (before after : list Call)
    (c : Call) (i : nat) (results res : list bytes) (l l1 l2 : Ledger S World)
    (r : bool * bytes) :
  forward env before i results l = Return res l1 ->
  call env c l1 = (r, l2) ->
  call_passed r = false ->
  forward env (before ++ c :: after) i results l = Revert (stop_error r) l2.
Proof.
  intros Hbefore Hcall Hfail.
  rewrite forward_split, Hbefore, forward_run_calls.
  cbn [run_calls]. by rewrite Hcall, Hfail.
Qed.

End BatchFacts.

Section BatchSound.
Import WithCallers WithCallersFacts MarkFacts.
Context `{Host Storage}.

(** X7: [executeBatch] succeeds only if the deadline had not passed, the
    nonce was unused and the signature recovers to an allowed caller; its
    result has one entry per call, every entry is empty or decodes to
    [true], and the last event logged is [BatchExecuted] with that signer,
    the sender, the calls and the results. *)
Theorem executeBatch_success_sound (env : Env) (sb : SignedBatch)
    (l l' : Ledger Storage World) (rets : list bytes) :
  transact (executeBatch env sb) l = (Success rets, l') ->
  block_timestamp env <= sb_deadline sb /\
  isUsed (store l) (sb_nonce sb) = false /\
  (exists signer earlier,
     ECDSA_recover
       (toEthSignedMessageHash
          (getBatchHash (sb_calls sb) (sb_nonce sb) (sb_deadline sb)))
       (sb_signature sb) = Some signer /\
     isAllowed (store l) signer = true /\
     events l' = earlier ++ [BatchExecuted signer (msg_sender env) (sb_calls sb) rets]) /\
  length rets = length (sb_calls sb) /\
  Forall passing_data rets.
Proof.
  unfold transact. rewrite executeBatch_cases.
  destruct (Z.gtb_spec (block_timestamp env) (sb_deadline sb)) as [|Hdl]; [done|].
  destruct (isUsed (store l) (sb_nonce sb)) eqn:Hnonce; [done|].
  destruct (ECDSA_recover _ _) as [signer|] eqn:Hsig; [|done].
  destruct (isAllowed (store l) signer) eqn:Hallowed; [|done].
  destruct (run_calls env (sb_calls sb) (mark_nonce (sb_nonce sb) l))
    as [[r l1]|[rets1 l1]] eqn:Hrun; [done|].
  intros [= <- <-].
  split; [done|]. split; [done|]. split.
  - exists signer, (events l1). by cbn [events].
  - split; [by apply run_calls_length in Hrun | by apply run_calls_passing in Hrun].
Qed.

(** X8: a batch without calls, signed by an allowed caller and past the
    deadline and nonce checks, succeeds with no results: it uses up its
    nonce, logs [BatchExecuted] and touches nothing else. *)
Theorem executeBatch_empty (env : Env) (sb : SignedBatch) (l : Ledger Storage World)
    (signer : address) :
  sb_calls sb = [] ->
  block_timestamp env <= sb_deadline sb ->
  isUsed (store l) (sb_nonce sb) = false ->
  ECDSA_recover
    (toEthSignedMessageHash (getBatchHash [] (sb_nonce sb) (sb_deadline sb)))
    (sb_signature sb) = Some signer ->
  isAllowed (store l) signer = true ->
  transact (executeBatch env sb) l
  = (Success [],
     mkLedger (set_usedNonce (sb_nonce sb) true (store l))
       (events l ++ [BatchExecuted signer (msg_sender env) [] []])
       (world l)).
Proof.
  intros Hcalls Hdl Hnonce Hsig Hallowed. unfold transact.
  by rewrite executeBatch_cases, Hcalls, gtb_false, Hnonce, Hsig, Hallowed.
Qed.

(** X9: a ledger in which no caller is allowed and [admin] is still zero
    (a deployment before [initialize]) accepts nothing but [initialize]:
    every [executeBatch] reverts, and, [ECDSA.recover] never returning the
    zero address, so do every [setAdmin] and every [updateCallers]. *)
Theorem uninitialized_accepts_only_initialize (env : Env) (l : Ledger Storage World) :
  (forall hash signature, ECDSA_recover hash signature <> Some 0) ->
  admin (store l) = 0 ->
  allowedCallers (store l) = ∅ ->
  initialized (store l) = false ->
  (forall sb, exists e, transact (executeBatch env sb) l = (Reverted e, l)) /\
  (forall sc, exists e, transact (setAdmin env sc) l = (Reverted e, l)) /\
  (forall su, exists e, transact (updateCallers env su) l = (Reverted e, l)) /\
  (forall a, fst (transact (initialize a) l) = Success tt).
Proof.
  intros Hnonzero Hadmin Hnone Hfresh. repeat split.
  - intros sb. unfold transact. rewrite executeBatch_cases.
    destruct (block_timestamp env >? sb_deadline sb); [eauto|].
    destruct (isUsed (store l) (sb_nonce sb)); [eauto|].
    destruct (ECDSA_recover _ _) as [signer|]; [|eauto].
    unfold isAllowed. rewrite Hnone, lookup_empty. cbn [default]. eauto.
  - intros sc. unfold transact. rewrite setAdmin_cases.
    destruct (block_timestamp env >? sc_deadline sc); [eauto|].
    destruct (isUsed (store l) (sc_nonce sc)); [eauto|].
    destruct (ECDSA_recover _ _) as [signer|] eqn:Hsig; [|eauto].
    destruct (Z.eqb_spec signer (admin (store l))) as [->|]; [|eauto].
    rewrite Hadmin in Hsig. by apply Hnonzero in Hsig.
  - intros su. unfold transact. rewrite updateCallers_cases.
    destruct (negb _); [eauto|].
    destruct (block_timestamp env >? su_deadline su); [eauto|].
    destruct (isUsed (store l) (su_nonce su)); [eauto|].
    destruct (ECDSA_recover _ _) as [signer|] eqn:Hsig; [|eauto].
    destruct (Z.eqb_spec signer (admin (store l))) as [->|]; [|eauto].
    rewrite Hadmin in Hsig. by apply Hnonzero in Hsig.
  - intros a. unfold transact. by rewrite initialize_cases, Hfresh.
Qed.

End BatchSound.

Lemma forward_stops_at_first_failure_witness :
  let l : Ledger unit (list (address * uint256)) := mkLedger tt [] [] in
  @forward unit (Demo.host _) Demo.now
    [mkCall 1 0 []; mkCall 3 0 []; mkCall 1 7 []] 0 [[]; []; []] l
  = Revert (ErrorString "BatchDelegator: call returned false")
      (mkLedger tt [] [(1, 0); (3, 0)]).
Proof.
  intros l.
  exact (@forward_stops_at_first_failure unit (Demo.host _) Demo.now
           [mkCall 1 0 []] [mkCall 1 7 []] (mkCall 3 0 []) 0%nat [[]; []; []]
           [Demo.word 1; []; []] l (mkLedger tt [] [(1, 0)])
           (mkLedger tt [] [(1, 0); (3, 0)]) (true, Demo.word 0)
           eq_refl eq_refl eq_refl).
Defined.

Lemma executeBatch_success_sound_witness :
  let sb := mkSignedBatch [mkCall 1 0 []; mkCall 4 0 []] 5 1000 [x14] in
  let l' := snd (transact (@WithCallers.executeBatch (Demo.host _) Demo.now sb) Demo.ready) in
  length [Demo.word 1; []] = 2%nat /\
  Forall passing_data [Demo.word 1; []] /\
  WithCallers.isUsed (store Demo.ready) 5 = false.
Proof.
  intros sb l'.
  destruct (@executeBatch_success_sound (Demo.host _) Demo.now sb Demo.ready l'
              [Demo.word 1; []] eq_refl) as (_ & Hnonce & _ & Hlen & Hpass).
  split; [exact Hlen|]. split; [exact Hpass | exact Hnonce].
Defined.

Lemma executeBatch_empty_witness :
  let sb := mkSignedBatch [] 5 1000 [x14] in
  transact (@WithCallers.executeBatch (Demo.host _) Demo.now sb) Demo.ready
  = (Success [],
     mkLedger (WithCallers.mkStorage 10 {[ 20 := true ]} {[ 5 := true ]} true)
       [BatchExecuted 20 99 [] []] []).
Proof.
  intros sb.
  exact (@executeBatch_empty (Demo.host _) Demo.now sb Demo.ready 20
           eq_refl ltac:(vm_compute; discriminate) eq_refl eq_refl eq_refl).
Defined.

Lemma strict_recover_nonzero (hash signature : bytes) :
  DemoStrict.strict_recover hash signature <> Some 0.
Proof.
  unfold DemoStrict.strict_recover.
  destruct (Demo.demo_recover hash signature) as [a|]; [|done].
  destruct (Z.eqb_spec a 0); [done|]. by intros [= ->].
Qed.

Lemma uninitialized_accepts_only_initialize_witness :
  (exists e,
     transact (@WithCallers.setAdmin (DemoStrict.host _) Demo.now
                 (mkSignedAdminChange 11 7 2000 [x00])) Demo.genesis
     = (Reverted e, Demo.genesis)) /\
  fst (transact (@WithCallers.initialize (DemoStrict.host _) 10) Demo.genesis) = Success tt.
Proof.
  destruct (@uninitialized_accepts_only_initialize (DemoStrict.host _) Demo.now Demo.genesis
              strict_recover_nonzero eq_refl eq_refl eq_refl) as (_ & Hset & _ & Hinit).
  split; [exact (Hset (mkSignedAdminChange 11 7 2000 [x00])) | exact (Hinit 10)].
Defined.

(** ** The contract that wants the signature of [address(this)] *)

Section SelfSigned.
Context `{Host WithSig.Storage}.

Lemma withSig_setAdmin_cases (env : Env) (sc : SignedAdminChange)
    (l : Ledger WithSig.Storage World) :
  WithSig.setAdmin env sc l =
  let marked :=
    mkLedger (WithSig.set_usedNonce (sc_nonce sc) true (store l)) (events l) (world l) in
  if block_timestamp env >? sc_deadline sc then Revert DeadlineExpired l
  else if WithSig.isUsed (store l) (sc_nonce sc) then Revert NonceAlreadyUsed l
  else
    match ECDSA_recover
            (toEthSignedMessageHash
               (getAdminChangeHash (sc_newAdmin sc) (sc_nonce sc) (sc_deadline sc)))
            (sc_signature sc) with
    | None => Revert ECDSAFailure marked
    | Some signer =>
        if signer =? WithSig.admin (store l)
        then Return tt
               (mkLedger (WithSig.set_admin (sc_newAdmin sc) (store marked))
                  (events l ++ [AdminChanged (WithSig.admin (store l)) (sc_newAdmin sc)])
                  (world l))
        else Revert InvalidSignature marked
    end.
Proof.
  unfold WithSig.setAdmin. cbn zeta.
  destruct (block_timestamp env >? sc_deadline sc); [reflexivity|].
  unfold bind at 1. unfold read at 1.
  destruct (WithSig.isUsed (store l) (sc_nonce sc)); [reflexivity|].
  unfold bind at 1. unfold write at 1. unfold bind at 1. unfold recover.
  destruct (ECDSA_recover _ _) as [signer|]; [|reflexivity].
  unfold ret at 1. unfold bind at 1. unfold read at 1.
  cbn [store WithSig.admin WithSig.set_usedNonce].
  by destruct (signer =? WithSig.admin (store l)).
Qed.

(** X10: in this contract a batch is accepted only from [address(this)]:
    past the deadline and nonce checks, a signature that recovers to any
    other address, the admin's included, reverts with [InvalidSignature]. *)
Theorem withSig_executeBatch_only_self (env : Env) (sb : SignedBatch)
    (l : Ledger WithSig.Storage World) (signer : address) :
  block_timestamp env <= sb_deadline sb ->
  WithSig.isUsed (store l) (sb_nonce sb) = false ->
  ECDSA_recover
    (toEthSignedMessageHash (getBatchHash (sb_calls sb) (sb_nonce sb) (sb_deadline sb)))
    (sb_signature sb) = Some signer ->
  signer <> this env ->
  transact (WithSig.executeBatch env sb) l = (Reverted InvalidSignature, l).
Proof.
  intros Hdl Hnonce Hsig Hne. unfold transact.
  rewrite withSig_executeBatch_cases. cbn zeta.
  rewrite gtb_false, Hnonce, Hsig by done.
  by replace (signer =? this env) with false by (symmetry; by apply Z.eqb_neq).
Qed.

(** X11: in this contract too, [setAdmin] and [executeBatch] draw on the
    same nonces: after a [setAdmin] that went through with nonce [n], an
    [executeBatch] presenting [n] before its deadline reverts with
    [NonceAlreadyUsed]. *)
Theorem withSig_nonce_shared (env : Env) (sc : SignedAdminChange)
    (l : Ledger WithSig.Storage World) (env2 : Env) (sb : SignedBatch) :
  block_timestamp env <= sc_deadline sc ->
  WithSig.isUsed (store l) (sc_nonce sc) = false ->
  ECDSA_recover
    (toEthSignedMessageHash
       (getAdminChangeHash (sc_newAdmin sc) (sc_nonce sc) (sc_deadline sc)))
    (sc_signature sc) = Some (WithSig.admin (store l)) ->
  sb_nonce sb = sc_nonce sc ->
  block_timestamp env2 <= sb_deadline sb ->
  let l1 := snd (transact (WithSig.setAdmin env sc) l) in
  fst (transact (WithSig.setAdmin env sc) l) = Success tt /\
  transact (WithSig.executeBatch env2 sb) l1 = (Reverted NonceAlreadyUsed, l1).
Proof.
  intros Hdl Hnonce Hsig Hsame Hdl2. cbn zeta.
  assert (transact (WithSig.setAdmin env sc) l
          = (Success tt,
             mkLedger (WithSig.set_admin (sc_newAdmin sc)
                         (WithSig.set_usedNonce (sc_nonce sc) true (store l)))
               (events l ++ [AdminChanged (WithSig.admin (store l)) (sc_newAdmin sc)])
               (world l))) as Hfirst.
  { unfold transact. rewrite withSig_setAdmin_cases. cbn zeta.
    by rewrite gtb_false, Hnonce, Hsig, Z.eqb_refl. }
  rewrite Hfirst. cbn [fst snd]. split; [done|].
  unfold transact. rewrite withSig_executeBatch_cases. cbn zeta.
  rewrite gtb_false by done.
  replace (WithSig.isUsed _ (sb_nonce sb)) with true; [done|].
  unfold WithSig.isUsed. cbn [store WithSig.usedNonces WithSig.set_admin
    WithSig.set_usedNonce].
  by rewrite Hsame, lookup_insert_eq.
Qed.

End SelfSigned.

Lemma withSig_executeBatch_only_self_witness :
  let l : Ledger WithSig.Storage (list (address * uint256)) :=
    mkLedger (WithSig.mkStorage 10 ∅ true) [] [] in
  let signed_by_admin := mkSignedBatch [mkCall 1 0 []] 5 2000 [x0a] in
  transact (@WithSig.executeBatch (Demo.host _) Demo.now signed_by_admin) l
  = (Reverted InvalidSignature, l).
Proof.
  intros l signed_by_admin.
  exact (@withSig_executeBatch_only_self (Demo.host _) Demo.now signed_by_admin l 10
           ltac:(vm_compute; discriminate) eq_refl eq_refl ltac:(vm_compute; discriminate)).
Defined.

Lemma withSig_nonce_shared_witness :
  let l : Ledger WithSig.Storage (list (address * uint256)) :=
    mkLedger (WithSig.mkStorage 10 ∅ true) [] [] in
  let sc := mkSignedAdminChange 11 7 2000 [x0a] in
  let sb := mkSignedBatch [mkCall 1 0 []] 7 2000 [x32] in
  let l1 := snd (transact (@WithSig.setAdmin (Demo.host _) Demo.now sc) l) in
  transact (@WithSig.executeBatch (Demo.host _) Demo.now sb) l1
  = (Reverted NonceAlreadyUsed, l1).
Proof.
  intros l sc sb l1.
  exact (proj2 (@withSig_nonce_shared (Demo.host _) Demo.now sc l Demo.now sb
           ltac:(vm_compute; discriminate) eq_refl eq_refl eq_refl
           ltac:(vm_compute; discriminate))).
Defined.

(** * Further properties of the authorization hash *)

Section HashFacts.
Variable keccak : bytes -> bytes.

(** X12: [messageHash] of [src/delegate.ts], for every chain id and for
    every nonce up to 2^53 - 1: when the delegator address is ["0x"] or
    ["0X"] followed by an even number of hex digits of either case, it is the
    Keccak digest of [0x05 || RLP([chainId, address, nonce])] with both
    integers as minimal big-endian strings (empty for 0), the address bytes
    going in as they are, whatever their number; for any other address
    string the computation fails.  For a nonce above 2^53 - 1 it fails too,
    [toBeHex] refusing the number. *)
Theorem delegate_messageHash_conforms (chainId authNonce : N) (delegatorAddr : string) :
  ((authNonce <= Hex.maxValue)%N ->
   match Hex.getBytes delegatorAddr with
   | Some delegateAddress =>
       Delegate.messageHash keccak chainId delegatorAddr authNonce
       = Some (Hex.hexlify (keccak (Spec.auth_preimage chainId delegateAddress authNonce)))
   | None => Delegate.messageHash keccak chainId delegatorAddr authNonce = None
   end) /\
  ((Hex.maxValue < authNonce)%N ->
   Delegate.messageHash keccak chainId delegatorAddr authNonce = None) /\
  Spec.MinimalBE chainId (Spec.encodeInt chainId) /\
  Spec.MinimalBE authNonce (Spec.encodeInt authNonce).
Proof.
  split; [|split; [|split; apply DigitFacts.encodeInt_minimal]].
  - intros Hnonce.
    destruct (Hex.getBytes delegatorAddr) as [a|] eqn:Haddr.
    + by apply RlpFacts.delegate_messageHash_spec.
    + unfold Delegate.messageHash. cbn zeta.
      rewrite ToBeHexFacts.number_toBeHex_or_empty_safe by done.
      unfold Rlp.encodeRlp. cbn [Rlp._encode].
      by rewrite ToBeHexFacts.getBytes_toBeHex_or_empty, Haddr.
  - intros Hover. unfold Delegate.messageHash. cbn zeta.
    by rewrite ToBeHexFacts.number_toBeHex_or_empty_overflow.
Qed.

(** X13: in the first script of [src/delegate_and_execute.ts], for every
    chain id other than 0 the digest that is signed ([messageHash]) is the
    digest logged as the new hash ([hash]), and, for a well-formed address
    and a nonce up to 2^53 - 1, the authorization hash. *)
Theorem sponsored_messageHash_conforms_nonzero (chainId authNonce : N)
    (delegatorAddr : string) :
  (0 < chainId)%N ->
  SponsoredBatch.messageHash keccak chainId delegatorAddr authNonce
  = SponsoredBatch.hash keccak chainId delegatorAddr authNonce /\
  forall delegateAddress,
    (authNonce <= Hex.maxValue)%N ->
    Hex.getBytes delegatorAddr = Some delegateAddress ->
    SponsoredBatch.messageHash keccak chainId delegatorAddr authNonce
    = Some (Hex.hexlify (keccak (Spec.auth_preimage chainId delegateAddress authNonce))).
Proof.
  intros Hpos. split.
  - unfold SponsoredBatch.messageHash, SponsoredBatch.rlpEncoded, SponsoredBatch.hash,
      SponsoredBatch.MAGIC_PREFIX, Delegate.toBeHex_or_empty. cbn zeta.
    replace (chainId =? 0)%N with false by (symmetry; apply N.eqb_neq; lia).
    by destruct (Delegate.number_toBeHex_or_empty authNonce).
  - intros a Hnonce Haddr. by apply RlpFacts.sponsored_messageHash_nonzero.
Qed.

End HashFacts.

(** The address of the recorded run in upper case, and a nonce one above the
    safe integers. *)
Lemma delegate_messageHash_conforms_witness :
  Delegate.messageHash (fun preimage => preimage) 11155111
    "0X0EACC2307F0113F26840DD1DAC8DC586259994DD" 0
  = Some "0x05da83aa36a7940eacc2307f0113f26840dd1dac8dc586259994dd80"%string /\
  Delegate.messageHash (fun preimage => preimage) 11155111
    "0x0eacc2307f0113f26840dd1dac8dc586259994dd" 9007199254740992
  = None.
Proof.
  split.
  - exact (proj1 (delegate_messageHash_conforms (fun preimage => preimage) 11155111 0
                    "0X0EACC2307F0113F26840DD1DAC8DC586259994DD")
             ltac:(vm_compute; discriminate)).
  - exact (proj1 (proj2 (delegate_messageHash_conforms (fun preimage => preimage)
                           11155111 9007199254740992
                           "0x0eacc2307f0113f26840dd1dac8dc586259994dd"))
             ltac:(reflexivity)).
Defined.

Lemma sponsored_messageHash_conforms_nonzero_witness :
  SponsoredBatch.messageHash (fun preimage => preimage) 11155111
    "0x0eacc2307f0113f26840dd1dac8dc586259994dd" 0
  = Some "0x05da83aa36a7940eacc2307f0113f26840dd1dac8dc586259994dd80"%string.
Proof.
  exact (proj2 (sponsored_messageHash_conforms_nonzero (fun preimage => preimage)
                  11155111 0
                  "0x0eacc2307f0113f26840dd1dac8dc586259994dd" ltac:(reflexivity))
           [x0e; xac; xc2; x30; x7f; x01; x13; xf2; x68; x40;
            xdd; x1d; xac; x8d; xc5; x86; x25; x99; x94; xdd]
           ltac:(vm_compute; discriminate) eq_refl).
Defined.

(** ** Different authorizations, different preimages *)

Module PreimageFacts.
Import DigitFacts.
Local Open Scope N_scope.

Lemma to_N_byte_small (n : N) : n < 256 -> Byte.to_N (byte_of_N n) = n.
Proof. intros Hn. rewrite to_N_byte_of_N. by apply N.mod_small. Qed.

Lemma encodeInt_length (k : nat) (n : N) :
  n < 256 ^ N.of_nat k -> (length (Spec.encodeInt n) <= k)%nat.
Proof.
  revert n. induction k as [|k IH]; intros n Hn.
  - assert (n = 0) as -> by (simpl in Hn; lia). by rewrite encodeInt_zero.
  - destruct (N.eq_dec n 0) as [->|Hpos]; [rewrite encodeInt_zero; simpl; lia|].
    rewrite encodeInt_step by lia. rewrite length_app. cbn [length].
    assert (n / 256 < 256 ^ N.of_nat k) as Hq.
    { apply N.Div0.div_lt_upper_bound.
      rewrite Nat2N.inj_succ, N.pow_succ_r' in Hn. exact Hn. }
    specialize (IH _ Hq). lia.
Qed.

Lemma encodeInt_inj (n m : N) : Spec.encodeInt n = Spec.encodeInt m -> n = m.
Proof.
  intros Heq. apply (f_equal be_value) in Heq. by rewrite !encodeInt_value in Heq.
Qed.

(** The two shapes of the encoding of a string of at most 55 bytes. *)
Lemma rlp_string_short (x : bytes) :
  (length x <= 55)%nat ->
  (exists b, x = [b] /\ Byte.to_N b < 128 /\ Spec.rlp_string x = [b]) \/
  Spec.rlp_string x = byte_of_N (128 + N.of_nat (length x)) :: x.
Proof.
  intros Hlen. unfold Spec.rlp_string.
  destruct x as [|b [|b' rest]].
  - by right.
  - destruct (N.ltb_spec (Byte.to_N b) 128); [left; by exists b | by right].
  - right. by replace (N.of_nat (length (b :: b' :: rest)) <? 56) with true
      by (symmetry; apply N.ltb_lt; lia).
Qed.

Lemma rlp_string_length (x : bytes) :
  (length x <= 55)%nat -> (length (Spec.rlp_string x) <= Datatypes.S (length x))%nat.
Proof.
  intros Hlen.
  destruct (rlp_string_short x Hlen) as [(b & -> & _ & ->) | ->]; cbn [length]; lia.
Qed.

(** No encoding of a short string is the beginning of another one. *)
Lemma rlp_string_prefix_free (x y s t : bytes) :
  (length x <= 55)%nat -> (length y <= 55)%nat ->
  Spec.rlp_string x ++ s = Spec.rlp_string y ++ t -> x = y /\ s = t.
Proof.
  intros Hx Hy.
  assert (forall z : bytes, (length z <= 55)%nat ->
            Byte.to_N (byte_of_N (128 + N.of_nat (length z))) = 128 + N.of_nat (length z))
    as Hhead by (intros z Hz; apply to_N_byte_small; lia).
  destruct (rlp_string_short x Hx) as [(b & -> & Hb & ->) | ->],
           (rlp_string_short y Hy) as [(b' & -> & Hb' & ->) | ->];
    cbn [app]; intros [= Hfirst Hrest].
  - by subst.
  - subst b. rewrite (Hhead y Hy) in Hb. lia.
  - subst b'. rewrite (Hhead x Hx) in Hb'. lia.
  - apply (f_equal Byte.to_N) in Hfirst. rewrite (Hhead x Hx), (Hhead y Hy) in Hfirst.
    apply app_inj_1 in Hrest; [done | lia].
Qed.

(** A list whose payload is shorter than 256 bytes can be read back from
    its encoding. *)
Lemma rlp_list_payload (xs ys : list bytes) :
  (length (List.concat (map Spec.rlp_string xs)) < 256)%nat ->
  (length (List.concat (map Spec.rlp_string ys)) < 256)%nat ->
  Spec.rlp_list xs = Spec.rlp_list ys ->
  List.concat (map Spec.rlp_string xs) = List.concat (map Spec.rlp_string ys).
Proof.
  unfold Spec.rlp_list.
  set (p := List.concat (map Spec.rlp_string xs)).
  set (q := List.concat (map Spec.rlp_string ys)).
  intros Hp Hq.
  assert (forall z : bytes, (length z < 256)%nat -> 56 <= N.of_nat (length z) ->
            Spec.encodeInt (N.of_nat (length z)) = [byte_of_N (N.of_nat (length z))])
    as Hone.
  { intros z Hz Hbig. rewrite encodeInt_step by lia.
    rewrite N.div_small by lia. rewrite encodeInt_zero. cbn [app].
    by rewrite byte_of_N_mod. }
  destruct (N.ltb_spec (N.of_nat (length p)) 56) as [Hsp|Hlp],
           (N.ltb_spec (N.of_nat (length q)) 56) as [Hsq|Hlq].
  - by intros [= _ Hpq].
  - rewrite (Hone q Hq Hlq). cbn [length app]. intros [= Hfirst _].
    apply (f_equal Byte.to_N) in Hfirst.
    rewrite !to_N_byte_small in Hfirst by (simpl; lia). simpl in Hfirst. lia.
  - rewrite (Hone p Hp Hlp). cbn [length app]. intros [= Hfirst _].
    apply (f_equal Byte.to_N) in Hfirst.
    rewrite !to_N_byte_small in Hfirst by (simpl; lia). simpl in Hfirst. lia.
  - rewrite (Hone p Hp Hlp), (Hone q Hq Hlq). cbn [length app].
    by intros [= _ Hpq].
Qed.

Lemma auth_preimage_inj (c1 c2 n1 n2 : N) (a1 a2 : bytes) :
  c1 < 2 ^ 256 -> c2 < 2 ^ 256 -> n1 < 2 ^ 64 -> n2 < 2 ^ 64 ->
  length a1 = 20%nat -> length a2 = 20%nat ->
  Spec.auth_preimage c1 a1 n1 = Spec.auth_preimage c2 a2 n2 ->
  c1 = c2 /\ a1 = a2 /\ n1 = n2.
Proof.
  intros Hc1 Hc2 Hn1 Hn2 Ha1 Ha2. unfold Spec.auth_preimage. intros [= Heq].
  pose proof (encodeInt_length 32 c1 Hc1) as Lc1.
  pose proof (encodeInt_length 32 c2 Hc2) as Lc2.
  pose proof (encodeInt_length 8 n1 Hn1) as Ln1.
  pose proof (encodeInt_length 8 n2 Hn2) as Ln2.
  assert (forall c a n : bytes, (length c <= 32)%nat -> length a = 20%nat ->
            (length n <= 8)%nat ->
            (length (List.concat (map Spec.rlp_string [c; a; n])) < 256)%nat) as Hsize.
  { intros c a n Lc La Ln. cbn [map List.concat]. rewrite !length_app. cbn [length].
    pose proof (rlp_string_length c ltac:(lia)).
    pose proof (rlp_string_length a ltac:(lia)).
    pose proof (rlp_string_length n ltac:(lia)). lia. }
  apply rlp_list_payload in Heq; [|by apply Hsize..].
  cbn [map List.concat] in Heq.
  apply rlp_string_prefix_free in Heq as [Hc Heq]; [|lia..].
  apply rlp_string_prefix_free in Heq as [Ha Heq]; [|lia..].
  apply rlp_string_prefix_free in Heq as [Hn _]; [|lia..].
  split; [by apply encodeInt_inj|]. split; [done | by apply encodeInt_inj].
Qed.

End PreimageFacts.

(** X14: two authorizations that differ in chain id (below 2^256), in
    20-byte address or in nonce (up to 2^53 - 1) are hashed by [messageHash]
    of [src/delegate.ts] from different byte strings, so their digests can
    coincide only if Keccak collides on those two strings. *)
Theorem delegate_messageHash_separates (keccak : bytes -> bytes)
    (c1 c2 n1 n2 : N) (s1 s2 : string) (a1 a2 : bytes) :
  (c1 < 2 ^ 256)%N -> (c2 < 2 ^ 256)%N ->
  (n1 <= Hex.maxValue)%N -> (n2 <= Hex.maxValue)%N ->
  Hex.getBytes s1 = Some a1 -> Hex.getBytes s2 = Some a2 ->
  length a1 = 20%nat -> length a2 = 20%nat ->
  c1 <> c2 \/ a1 <> a2 \/ n1 <> n2 ->
  Delegate.messageHash keccak c1 s1 n1
  = Some (Hex.hexlify (keccak (Spec.auth_preimage c1 a1 n1))) /\
  Delegate.messageHash keccak c2 s2 n2
  = Some (Hex.hexlify (keccak (Spec.auth_preimage c2 a2 n2))) /\
  Spec.auth_preimage c1 a1 n1 <> Spec.auth_preimage c2 a2 n2 /\
  (keccak (Spec.auth_preimage c1 a1 n1) <> keccak (Spec.auth_preimage c2 a2 n2) ->
   Delegate.messageHash keccak c1 s1 n1 <> Delegate.messageHash keccak c2 s2 n2).
Proof.
  intros Hc1 Hc2 Hn1 Hn2 Hs1 Hs2 Ha1 Ha2 Hdiff.
  pose proof (RlpFacts.delegate_messageHash_spec keccak c1 n1 s1 a1 Hn1 Hs1) as H1.
  pose proof (RlpFacts.delegate_messageHash_spec keccak c2 n2 s2 a2 Hn2 Hs2) as H2.
  assert (n1 < 2 ^ 64)%N as Hn1' by (unfold Hex.maxValue in Hn1; simpl; lia).
  assert (n2 < 2 ^ 64)%N as Hn2' by (unfold Hex.maxValue in Hn2; simpl; lia).
  split; [done|]. split; [done|]. split.
  - intros Heq.
    destruct (PreimageFacts.auth_preimage_inj c1 c2 n1 n2 a1 a2 Hc1 Hc2 Hn1' Hn2' Ha1 Ha2 Heq)
      as (? & ? & ?).
    destruct Hdiff as [?|[?|?]]; done.
  - intros Hk. rewrite H1, H2. intros Heq. apply Hk.
    apply (f_equal (fun o => match o with
                             | Some h => Hex.getBytes h
                             | None => None
                             end)) in Heq.
    cbv beta iota in Heq.
    rewrite !HexFacts.getBytes_hexlify in Heq. by injection Heq.
Qed.

(** The delegation of the recorded run against its revocation, which names
    the zero address. *)
Lemma delegate_messageHash_separates_witness :
  Delegate.messageHash (fun preimage => preimage) 11155111
    "0x0eacc2307f0113f26840dd1dac8dc586259994dd" 0
  <> Delegate.messageHash (fun preimage => preimage) 11155111
       "0x0000000000000000000000000000000000000000" 0.
Proof.
  refine (proj2 (proj2 (proj2 (delegate_messageHash_separates (fun preimage => preimage)
    11155111 11155111 0 0
    "0x0eacc2307f0113f26840dd1dac8dc586259994dd"
    "0x0000000000000000000000000000000000000000"
    [x0e; xac; xc2; x30; x7f; x01; x13; xf2; x68; x40;
     xdd; x1d; xac; x8d; xc5; x86; x25; x99; x94; xdd] (replicate 20 x00)
    ltac:(reflexivity) ltac:(reflexivity)
    ltac:(vm_compute; discriminate) ltac:(vm_compute; discriminate)
    eq_refl eq_refl eq_refl eq_refl
    ltac:(right; left; discriminate)))) _).
  vm_compute. discriminate.
Defined.

(** * Further properties: the unguarded contract and the zero admin *)

Section UnguardedFacts.
Context `{Host unit}.

(** X15: [executeBatch] of the unguarded contract checks nothing about who
    sends it: invoked by anyone, it runs the calls in order, reverts (leaving
    the ledger untouched) at the first call that does not pass, and
    otherwise returns the return data of the calls, one entry per call in
    their order, and logs [BatchExecuted] with the sender. *)
Theorem unguarded_executeBatch_outcome (env : Env) (calls : list Call)
    (l : Ledger unit World) :
  transact (Unguarded.executeBatch env calls) l =
  match run_calls env calls l with
  | inl (r, _) => (Reverted (stop_error r), l)
  | inr (rets, l') =>
      (Success rets,
       mkLedger (store l') (events l' ++ [BatchExecutedBy (msg_sender env) calls rets])
         (world l'))
  end /\
  (forall rets l', run_calls env calls l = inr (rets, l') ->
                   length rets = length calls /\ Forall passing_data rets).
Proof.
  split.
  - unfold transact. rewrite unguarded_executeBatch_cases.
    by destruct (run_calls env calls l) as [[r l']|[rets l']].
  - intros rets l' Hrun. split;
      [by apply run_calls_length in Hrun | by apply run_calls_passing in Hrun].
Qed.

End UnguardedFacts.

Section ZeroAdmin.
Import WithCallers WithCallersFacts.
Context `{Host Storage}.

(** X16: [setAdmin] accepts the zero address as new admin, and that is
    final: [ECDSA.recover] never returning the zero address, every later
    [setAdmin] and [updateCallers] on that ledger reverts. *)
Theorem zero_admin_is_final (env : Env) (sc : SignedAdminChange)
    (l : Ledger Storage World) :
  (forall hash signature, ECDSA_recover hash signature <> Some 0) ->
  sc_newAdmin sc = 0 ->
  block_timestamp env <= sc_deadline sc ->
  isUsed (store l) (sc_nonce sc) = false ->
  ECDSA_recover
    (toEthSignedMessageHash
       (getAdminChangeHash (sc_newAdmin sc) (sc_nonce sc) (sc_deadline sc)))
    (sc_signature sc) = Some (admin (store l)) ->
  let l1 := snd (transact (setAdmin env sc) l) in
  fst (transact (setAdmin env sc) l) = Success tt /\
  admin (store l1) = 0 /\
  (forall env2 sc2, exists e, transact (setAdmin env2 sc2) l1 = (Reverted e, l1)) /\
  (forall env2 su2, exists e, transact (updateCallers env2 su2) l1 = (Reverted e, l1)).
Proof.
  intros Hnonzero Hzero Hdl Hnonce Hsig. cbn zeta.
  assert (transact (setAdmin env sc) l
          = (Success tt, change_admin (sc_newAdmin sc) (mark_nonce (sc_nonce sc) l)))
    as Hfirst.
  { unfold transact. by rewrite setAdmin_cases, gtb_false, Hnonce, Hsig, Z.eqb_refl. }
  rewrite Hfirst. cbn [fst snd].
  set (l1 := change_admin (sc_newAdmin sc) (mark_nonce (sc_nonce sc) l)).
  assert (admin (store l1) = 0) as Hadmin by exact Hzero.
  clearbody l1. clear Hsig Hfirst.
  split; [done|]. split; [done|]. split.
  - intros env2 sc2. unfold transact. rewrite setAdmin_cases.
    destruct (block_timestamp env2 >? sc_deadline sc2); [by eexists|].
    destruct (isUsed (store l1) (sc_nonce sc2)); [by eexists|].
    destruct (ECDSA_recover _ _) as [signer|] eqn:Hsig2; [|by eexists].
    destruct (Z.eqb_spec signer (admin (store l1))) as [->|]; [|by eexists].
    rewrite Hadmin in Hsig2. by apply Hnonzero in Hsig2.
  - intros env2 su2. unfold transact. rewrite updateCallers_cases.
    destruct (negb _); [by eexists|].
    destruct (block_timestamp env2 >? su_deadline su2); [by eexists|].
    destruct (isUsed (store l1) (su_nonce su2)); [by eexists|].
    destruct (ECDSA_recover _ _) as [signer|] eqn:Hsig2; [|by eexists].
    destruct (Z.eqb_spec signer (admin (store l1))) as [->|]; [|by eexists].
    rewrite Hadmin in Hsig2. by apply Hnonzero in Hsig2.
Qed.

End ZeroAdmin.

Lemma zero_admin_is_final_witness :
  let sc := mkSignedAdminChange 0 7 2000 [x0a] in
  let l1 := snd (transact (@WithCallers.setAdmin (DemoStrict.host _) Demo.now sc) Demo.ready) in
  WithCallers.admin (store l1) = 0 /\
  exists e,
    transact (@WithCallers.setAdmin (DemoStrict.host _) Demo.now
                (mkSignedAdminChange 10 8 2000 [x0a])) l1
    = (Reverted e, l1).
Proof.
  intros sc l1.
  destruct (@zero_admin_is_final (DemoStrict.host _) Demo.now sc Demo.ready
              strict_recover_nonzero eq_refl ltac:(vm_compute; discriminate)
              eq_refl eq_refl) as (_ & Hadmin & Hset & _).
  split; [exact Hadmin|].
  exact (Hset Demo.now (mkSignedAdminChange 10 8 2000 [x0a])).
Defined.
